(** * The forecasting core of [stock_apk.py]

    A shallow embedding of the indicator engine ([compute_rsi],
    [compute_indicators]), the sentiment trend forecaster
    ([forecast_future_sentiment]) and the forecast pipeline
    ([predict_future]), with the properties the specification states
    about them; and of the steps that feed them: the price download
    ([get_stock_data]), the symbol dialog ([get_stock_symbol]), the
    company name lookup ([get_company_name]) and the news sentiment
    ([get_news_sentiment]).

    Numbers.  The program computes with NumPy and pandas floats.  Here a
    finite number is a rational [Q] and arithmetic is exact; rounding,
    overflow and infinities are outside the model.  pandas' missing value
    [NaN] is [None], so a pandas Series is a [list (option Q)].  Equality of
    numbers is [Qeq], written [==].

    Integers.  The volume column is int64, as yfinance delivers it, when
    its cells are integers that int64 holds; the running sum of the
    on-balance volume is then taken in int64 and wraps around at 2^63.

    Dates.  A calendar date is its proleptic Gregorian ordinal
    ([date.toordinal()]), an integer; ordinal 1 is a Monday.

    Libraries.  The pandas, NumPy and scikit-learn operations the program
    calls are written out as the functions they compute.  The sequence
    model, the linear regression, the square root and the random draws
    are parameters of the sections that use them. *)

From Stdlib Require Import QArith Qminmax Qabs Qround Lqa ZArith.
From stdpp Require Import base list gmap strings sorting.

#[local] Open Scope Q_scope.

(** ** pandas Series operations used by the program *)

Module Series.

(** Lift of a binary float operation: [NaN] is absorbing. *)
Definition lift2 (f : Q → Q → Q) (x y : option Q) : option Q :=
  match x, y with
  | Some a, Some b => Some (f a b)
  | _, _ => None
  end.

(** [s.diff()]: the first element has no predecessor. *)
Fixpoint diff_from (prev : option Q) (s : list (option Q)) : list (option Q) :=
  match s with
  | [] => []
  | x :: r => lift2 Qminus x prev :: diff_from x r
  end.

Definition diff (s : list (option Q)) : list (option Q) := diff_from None s.

(** [s.shift()]: every element moves one place down. *)
Fixpoint shift_from (prev : option Q) (s : list (option Q)) : list (option Q) :=
  match s with
  | [] => []
  | x :: r => prev :: shift_from x r
  end.

Definition shift (s : list (option Q)) : list (option Q) := shift_from None s.

(** [s.clip(lower=lo)] and [s.clip(upper=hi)]; [NaN] stays [NaN]. *)
Definition clip_lower (lo : Q) (s : list (option Q)) : list (option Q) :=
  fmap (M := option) (λ x, if Qlt_le_dec x lo then lo else x) <$> s.

Definition clip_upper (hi : Q) (s : list (option Q)) : list (option Q) :=
  fmap (M := option) (λ x, if Qlt_le_dec hi x then hi else x) <$> s.

Definition neg (s : list (option Q)) : list (option Q) :=
  fmap (M := option) Qopp <$> s.

Definition abs (s : list (option Q)) : list (option Q) :=
  fmap (M := option) Qabs <$> s.

(** [s.replace(0, np.nan)]. *)
Definition replace_zero_nan (s : list (option Q)) : list (option Q) :=
  (λ x, match x with
        | Some q => if Qeq_bool q 0 then None else Some q
        | None => None
        end) <$> s.

(** [s.fillna(v)]. *)
Definition fillna (v : Q) (s : list (option Q)) : list (option Q) :=
  (λ x, match x with Some q => Some q | None => Some v end) <$> s.

(** [s.bfill()]: a missing value takes the next valid one, if any. *)
Fixpoint bfill (s : list (option Q)) : list (option Q) :=
  match s with
  | [] => []
  | x :: r =>
      let r' := bfill r in
      match x with
      | Some q => Some q :: r'
      | None => default None (head r') :: r'
      end
  end.

(** Element-wise arithmetic of two aligned series. *)
Definition add (a b : list (option Q)) : list (option Q) := zip_with (lift2 Qplus) a b.
Definition sub (a b : list (option Q)) : list (option Q) := zip_with (lift2 Qminus) a b.
Definition div (a b : list (option Q)) : list (option Q) := zip_with (lift2 Qdiv) a b.

(** *** Exponentially weighted mean

    [s.ewm(com=c, adjust=a, min_periods=m).mean()] with pandas' default
    [ignore_na=False], as the recurrence pandas runs: a running weighted
    value, the number of observations seen, and the weight of the past. *)

Record ewm_state := EwmState {
  weighted : option Q;
  nobs : nat;
  old_wt : Q
}.

Definition is_observation (cur : option Q) : nat :=
  match cur with Some _ => 1%nat | None => 0%nat end.

Definition ewm_step (old_wt_factor new_wt : Q) (adjust : bool)
    (st : ewm_state) (cur : option Q) : ewm_state :=
  let n := (nobs st + is_observation cur)%nat in
  match weighted st with
  | Some w =>
      let ow := old_wt st * old_wt_factor in
      match cur with
      | Some c =>
          let w' := if Qeq_bool w c then w
                    else (ow * w + new_wt * c) / (ow + new_wt) in
          EwmState (Some w') n (if adjust then ow + new_wt else 1)
      | None => EwmState (Some w) n ow
      end
  | None => EwmState cur n (old_wt st)
  end.

Definition ewm_out (minp : nat) (st : ewm_state) : option Q :=
  if (minp <=? nobs st)%nat then weighted st else None.

Fixpoint ewm_loop (old_wt_factor new_wt : Q) (adjust : bool) (minp : nat)
    (st : ewm_state) (vals : list (option Q)) : list (option Q) :=
  match vals with
  | [] => []
  | cur :: r =>
      let st' := ewm_step old_wt_factor new_wt adjust st cur in
      ewm_out minp st' :: ewm_loop old_wt_factor new_wt adjust minp st' r
  end.

Definition ewm_mean (com : Q) (adjust : bool) (min_periods : nat)
    (vals : list (option Q)) : list (option Q) :=
  let alpha := 1 / (1 + com) in
  let old_wt_factor := 1 - alpha in
  let new_wt := if adjust then 1 else alpha in
  let minp := Nat.max min_periods 1 in
  match vals with
  | [] => []
  | v0 :: r =>
      let st0 := EwmState v0 (is_observation v0) 1 in
      ewm_out minp st0 :: ewm_loop old_wt_factor new_wt adjust minp st0 r
  end.

(** [span=s] is the centre of mass [(s - 1) / 2]. *)
Definition com_of_span (span : Q) : Q := (span - 1) / 2.

End Series.

(** ** [compute_rsi] *)

(** The price series handed to [compute_rsi] holds finite numbers.  The
    period is at least 1: pandas rejects a negative centre of mass. *)

Definition of_finite (s : list Q) : list (option Q) := Some <$> s.

Definition rsi_gain (series : list Q) : list (option Q) :=
  let delta := Series.diff (of_finite series) in
  Series.clip_lower 0 delta.

Definition rsi_loss (series : list Q) : list (option Q) :=
  let delta := Series.diff (of_finite series) in
  Series.neg (Series.clip_upper 0 delta).

Definition rsi_avg_gain (series : list Q) (period : positive) : list (option Q) :=
  Series.ewm_mean (inject_Z (Z.pos period) - 1) true (Pos.to_nat period)
    (rsi_gain series).

Definition rsi_avg_loss (series : list Q) (period : positive) : list (option Q) :=
  Series.ewm_mean (inject_Z (Z.pos period) - 1) true (Pos.to_nat period)
    (rsi_loss series).

Definition rsi_of_rs (rs : option Q) : option Q :=
  Series.lift2 Qminus (Some 100) (Series.lift2 Qdiv (Some 100) (Series.lift2 Qplus (Some 1) rs)).

Definition compute_rsi (series : list Q) (period : positive) : list (option Q) :=
  let avg_gain := rsi_avg_gain series period in
  let avg_loss := rsi_avg_loss series period in
  let rs := Series.div avg_gain (Series.replace_zero_nan avg_loss) in
  let rsi := rsi_of_rs <$> rs in
  let rsi := Series.fillna 100 rsi in
  Series.bfill rsi.

(** ** Rolling windows *)

Module Rolling.

(** The [w] values ending at position [i], when there are [w] of them
    and none is missing (pandas' default [min_periods = window]). *)
Definition window_at (w i : nat) (s : list (option Q)) : option (list Q) :=
  if ((0 <? w) && (w <=? S i))%nat
  then mapM id (take w (drop (S i - w) s))
  else None.

Definition Qsum (l : list Q) : Q := foldr Qplus 0 l.

Definition mean_of (l : list Q) : Q := Qsum l / inject_Z (Z.of_nat (length l)).

(** Sample variance, [ddof = 1]; undefined for fewer than two values. *)
Definition var_of (l : list Q) : option Q :=
  if (length l <=? 1)%nat then None
  else
    let m := mean_of l in
    Some (Qsum ((λ x, (x - m) * (x - m)) <$> l)
          / inject_Z (Z.of_nat (length l - 1))).

Definition apply (f : list Q → option Q) (w : nat) (s : list (option Q))
    : list (option Q) :=
  (λ i, window_at w i s ≫= f) <$> seq 0 (length s).

(** [s.rolling(window=w).mean()]. *)
Definition mean (w : nat) (s : list (option Q)) : list (option Q) :=
  apply (λ l, Some (mean_of l)) w s.

(** [s.rolling(window=w).std()], given the square root. *)
Definition std (sqrt : Q → Q) (w : nat) (s : list (option Q)) : list (option Q) :=
  apply (λ l, sqrt <$> var_of l) w s.

End Rolling.

(** ** scikit-learn's [MinMaxScaler] with the default range (0, 1) *)

Module MinMaxScaler.

Record t := Scaler { min_ : Q; scale_ : Q }.

(** Machine epsilon of a 64-bit float. *)
Definition eps : Q := 1 / inject_Z (2 ^ 52).

(** A (nearly) constant feature is scaled by 1. *)
Definition handle_zeros_in_scale (range : Q) : Q :=
  if Qlt_le_dec range (10 * eps) then 1 else range.

(** [fit] on one feature; scikit-learn raises on zero samples. *)
Definition fit1 (c : list Q) : option t :=
  match c with
  | [] => None
  | x :: r =>
      let data_min := foldl Qmin x r in
      let data_max := foldl Qmax x r in
      let scale := 1 / handle_zeros_in_scale (data_max - data_min) in
      Some (Scaler (0 - data_min * scale) scale)
  end.

Definition transform1 (sc : t) (x : Q) : Q := x * scale_ sc + min_ sc.

Definition inverse_transform1 (sc : t) (x : Q) : Q := (x - min_ sc) / scale_ sc.

Definition fit_transform1 (c : list Q) : option (list Q) :=
  sc ← fit1 c; Some (transform1 sc <$> c).

(** A matrix is a list of rows; feature [j] is column [j]. *)
Definition column (j : nat) (rows : list (list Q)) : list Q :=
  (λ r, default 0 (r !! j)) <$> rows.

Definition fit (rows : list (list Q)) : option (list t) :=
  match rows with
  | [] => None
  | r0 :: _ => mapM (λ j, fit1 (column j rows)) (seq 0 (length r0))
  end.

Definition transform (scs : list t) (rows : list (list Q)) : list (list Q) :=
  (λ r, zip_with transform1 scs r) <$> rows.

Definition fit_transform (rows : list (list Q)) : option (list t * list (list Q)) :=
  scs ← fit rows; Some (scs, transform scs rows).

End MinMaxScaler.

(** ** The price table *)

(** A pandas DataFrame with a date index and named numeric columns.  Column
    names may repeat and may differ in case; every cell is a finite
    number. *)
Record DataFrame := Frame {
  index : list Z;
  columns : list (string * list Q)
}.

(** [df.empty]: some axis has length zero. *)
Definition df_empty (df : DataFrame) : bool :=
  (length (index df) =? 0)%nat || (length (columns df) =? 0)%nat.

Definition lower_char (c : Ascii.ascii) : Ascii.ascii :=
  let n := Ascii.nat_of_ascii c in
  if ((65 <=? n) && (n <=? 90))%nat then Ascii.ascii_of_nat (n + 32) else c.

(** [str(col).lower()] on ASCII names. *)
Fixpoint lower (s : string) : string :=
  match s with
  | EmptyString => EmptyString
  | String c r => String (lower_char c) (lower r)
  end.

Definition lower_columns (cols : list (string * list Q)) : list (string * list Q) :=
  (λ nc, (lower nc.1, nc.2)) <$> cols.

(** [data.loc[:, ~data.columns.duplicated(keep='first')]]. *)
Fixpoint drop_duplicated (seen : list string) (cols : list (string * list Q))
    : list (string * list Q) :=
  match cols with
  | [] => []
  | nc :: r =>
      if bool_decide (nc.1 ∈ seen) then drop_duplicated seen r
      else nc :: drop_duplicated (nc.1 :: seen) r
  end.

Fixpoint get_col (name : string) (cols : list (string * list Q)) : option (list Q) :=
  match cols with
  | [] => None
  | nc :: r => if bool_decide (nc.1 = name) then Some nc.2 else get_col name r
  end.

Definition required_cols : list string := ["close"; "high"; "low"; "volume"]%string.

Definition missing_cols (cols : list (string * list Q)) : list string :=
  filter (λ c, c ∉ cols.*1) required_cols.

(** ** On-balance volume *)

(** yfinance delivers the volume as an int64 column.  A column is int64
    when every cell of it is an integer that int64 holds, and float64
    otherwise. *)
Definition is_int64 (q : Q) : bool :=
  Qeq_bool (inject_Z (Qfloor q)) q
  && (- 2 ^ 63 <=? Qfloor q)%Z && (Qfloor q <? 2 ^ 63)%Z.

Definition int64_column (col : list Q) : bool := forallb is_int64 col.

(** The int64 that NumPy keeps of an integer result: its value modulo
    2^64, in [-2^63, 2^63). *)
Definition int64_wrap (z : Z) : Z := ((z + 2 ^ 63) mod 2 ^ 64 - 2 ^ 63)%Z.

(** [obv[i-1] + volume_series.iloc[i]] and [obv[i-1] - volume_series.iloc[i]]:
    int64 arithmetic, which wraps around, when the volume column is
    int64. *)
Definition obv_add (int64 : bool) (prev_obv volume : Q) : Q :=
  if int64 then inject_Z (int64_wrap (Qfloor prev_obv + Qfloor volume))
  else prev_obv + volume.

Definition obv_sub (int64 : bool) (prev_obv volume : Q) : Q :=
  if int64 then inject_Z (int64_wrap (Qfloor prev_obv - Qfloor volume))
  else prev_obv - volume.

(** The loop body of the OBV computation at one row, from the previous
    close and the previous OBV. *)
Definition obv_next (int64 : bool) (prev_close prev_obv close volume : Q) : Q :=
  if Qlt_le_dec prev_close close then obv_add int64 prev_obv volume
  else if Qlt_le_dec close prev_close then obv_sub int64 prev_obv volume
  else prev_obv.

Fixpoint obv_from (int64 : bool) (prev_close prev_obv : Q) (closes volumes : list Q)
    : list Q :=
  match closes, volumes with
  | c :: cs, v :: vs =>
      let o := obv_next int64 prev_close prev_obv c v in
      o :: obv_from int64 c o cs vs
  | _, _ => []
  end.

(** [obv[0] = 0], then one step per row. *)
Definition obv (closes volumes : list Q) : list Q :=
  match closes, volumes with
  | c0 :: cs, _ :: vs => 0 :: obv_from (int64_column volumes) c0 0 cs vs
  | _, _ => []
  end.

(** The OBV column: the running sum, min-max scaled over the whole series. *)
Definition obv_column (closes volumes : list Q) : list Q :=
  default [] (MinMaxScaler.fit_transform1 (obv closes volumes)).

(** ** True range *)

(** Row maximum with [skipna=True]. *)
Definition max_skipna (xs : list (option Q)) : option Q :=
  match omap id xs with
  | [] => None
  | x :: r => Some (foldl Qmax x r)
  end.

Definition true_range (high low close : list Q) : list (option Q) :=
  let high_low := Series.sub (of_finite high) (of_finite low) in
  let high_prev_close :=
    Series.abs (Series.sub (of_finite high) (Series.shift (of_finite close))) in
  let low_prev_close :=
    Series.abs (Series.sub (of_finite low) (Series.shift (of_finite close))) in
  zip_with (λ hl pc, max_skipna [hl; pc.1; pc.2]) high_low
    (zip high_prev_close low_prev_close).

(** ** [compute_indicators] *)

Definition feature_cols : list string :=
  ["close"; "EMA20"; "MACD"; "RSI_MA"; "RSI_Slope"; "OBV"; "ATR"; "StdDev"; "BBWidth"]%string.

(** Position of the OBV feature in [feature_cols]. *)
Definition obv_index : nat := 5%nat.

(** Row [i] of a table given by its columns, when no cell of it is
    missing. *)
Definition row_at (i : nat) (cols : list (list (option Q))) : option (list Q) :=
  mapM (λ c, mjoin (c !! i)) cols.

(** [data[cols].dropna()] over [n] rows. *)
Definition dropna (n : nat) (cols : list (list (option Q))) : list (list Q) :=
  omap (λ i, row_at i cols) (seq 0 n).

Section Indicators.

(** The square root of the floats, used by the rolling standard
    deviation only. *)
Variable sqrt : Q → Q.

(** The body of the [try] block: the nine feature columns, in the order
    of [feature_cols]. *)
Definition indicator_columns (vol_window ema_window : nat)
    (close high low volume : list Q) : list (list (option Q)) :=
  let span_com (w : nat) := Series.com_of_span (inject_Z (Z.of_nat w)) in
  let c := of_finite close in
  let EMA20 := Series.ewm_mean (span_com ema_window) false 0%nat c in
  let ema12 := Series.ewm_mean (span_com 12%nat) false 0%nat c in
  let ema26 := Series.ewm_mean (span_com 26%nat) false 0%nat c in
  let MACD := Series.sub ema12 ema26 in
  let rsi_period := 14%positive in
  let RSI := compute_rsi close rsi_period in
  let rsi_ma_length := 9%nat in
  let RSI_MA := Rolling.mean rsi_ma_length RSI in
  let RSI_Slope := Series.diff RSI_MA in
  let OBV := of_finite (obv_column close volume) in
  let tr := true_range high low close in
  let ATR := Series.ewm_mean (span_com vol_window) false 0%nat tr in
  let StdDev := Rolling.std sqrt vol_window c in
  let twice := fmap (M := list) (fmap (M := option) (λ x, x * 2)) in
  let UpperBB := Series.add EMA20 (twice StdDev) in
  let LowerBB := Series.sub EMA20 (twice StdDev) in
  let bb_width_calc :=
    Series.div (Series.sub UpperBB LowerBB) (Series.replace_zero_nan EMA20) in
  let BBWidth := Series.bfill bb_width_calc in
  [c; EMA20; MACD; RSI_MA; RSI_Slope; OBV; ATR; StdDev; BBWidth].

(** The feature matrix, one row of nine numbers per surviving date; the
    empty list is the empty frame the function returns on every failure.
    pandas rejects a span below 1 by an exception, which the function
    catches. *)
Definition compute_indicators (df : DataFrame) (vol_window ema_window : nat)
    : list (list Q) :=
  if df_empty df then []
  else
    let data := drop_duplicated [] (lower_columns (columns df)) in
    if bool_decide (missing_cols data = []) then
      match get_col "close" data, get_col "high" data,
            get_col "low" data, get_col "volume" data with
      | Some close, Some high, Some low, Some volume =>
          if ((ema_window =? 0) || (vol_window =? 0))%nat then []
          else dropna (length (index df))
                 (indicator_columns vol_window ema_window close high low volume)
      | _, _, _, _ => []
      end
    else [].

End Indicators.

(** ** Business days *)

(** [date.weekday()]: Monday is 0, Sunday is 6. *)
Definition weekday (d : Z) : Z := ((d + 6) mod 7)%Z.

Definition is_business_day (d : Z) : bool := (weekday d <? 5)%Z.

(** A start date that falls on a weekend moves to the Monday after. *)
Definition rollforward (d : Z) : Z :=
  if (weekday d =? 5)%Z then (d + 2)%Z
  else if (weekday d =? 6)%Z then (d + 1)%Z
  else d.

(** The business day after a business day. *)
Definition next_bday (d : Z) : Z :=
  if (weekday d =? 4)%Z then (d + 3)%Z else (d + 1)%Z.

Fixpoint bdays_from (d : Z) (periods : nat) : list Z :=
  match periods with
  | O => []
  | S k => d :: bdays_from (next_bday d) k
  end.

(** [pd.date_range(start=start, periods=periods, freq='B').date]. *)
Definition bdate_range (start : Z) (periods : nat) : list Z :=
  bdays_from (rollforward start) periods.

(** ** Windows and the autoregressive rollout *)

(** [m[a:b]] for [0 <= a <= b]. *)
Definition slice {A} (a b : nat) (m : list A) : list A := take (b - a) (drop a m).

(** [m[i, j]]; [None] is NumPy's IndexError. *)
Definition cell (i j : nat) (m : list (list Q)) : option Q := m !! i ≫= (.!! j).

(** Step 3 of [predict_future]: the pairs [(X_train[k], y_train[k])]. *)
Definition make_windows (time_step : nat) (scaled_data : list (list Q))
    : option (list (list (list Q) * Q)) :=
  mapM (λ i, y ← cell i 0 scaled_data;
             Some (slice (i - time_step) i scaled_data, y))
       (seq time_step (length scaled_data - time_step)).

(** [new_row[0] = v] on a copy of the row. *)
Definition set_target (v : Q) (row : list Q) : option (list Q) :=
  match row with
  | [] => None
  | _ => Some (<[0%nat := v]> row)
  end.

(** One pass of the prediction loop, on the pair of the predictions made
    so far and the current batch. *)
Definition roll_body (predict : list (list Q) → Q)
    (st : list Q * list (list Q)) : option (list Q * list (list Q)) :=
  let '(predicted_scaled_prices, current_batch) := st in
  let next_pred_scaled := predict current_batch in
  last_row ← last current_batch;
  new_row ← set_target next_pred_scaled last_row;
  Some (predicted_scaled_prices ++ [next_pred_scaled],
        drop 1 current_batch ++ [new_row]).

Fixpoint roll_loop (predict : list (list Q) → Q) (n : nat)
    (st : list Q * list (list Q)) : option (list Q * list (list Q)) :=
  match n with
  | O => Some st
  | S k => st' ← roll_body predict st; roll_loop predict k st'
  end.

(** The rollout over [horizon] steps from the window [last_sequence]. *)
Definition roll (predict : list (list Q) → Q) (last_sequence : list (list Q))
    (horizon : nat) : option (list Q * list (list Q)) :=
  roll_loop predict horizon ([], last_sequence).

(** ** The continuity and blend stage *)

Definition np_mean (l : list Q) : Q := Rolling.mean_of l.

(** Step 6: inverse scaling with the target column's scaler. *)
Definition inverse_transform (close_scaler : MinMaxScaler.t) (path : list Q) : list Q :=
  MinMaxScaler.inverse_transform1 close_scaler <$> path.

(** Step 7: the shift by [last_actual_price - predicted_prices[0]]. *)
Definition continuity_shift (last_actual_price : Q) (predicted_prices : list Q)
    : option (list Q) :=
  p0 ← head predicted_prices;
  let price_shift := last_actual_price - p0 in
  Some ((λ p, p + price_shift) <$> predicted_prices).

Definition sentiment_weight : Q := 5 # 1000.

(** Step 9: one factor per forecast date; a date without a forecast
    counts as 0. *)
Definition sentiment_blend (future_sentiment : gmap Z Q) (future_dates : list Z)
    (prices : list Q) : list Q :=
  zip_with (λ d p, p * (1 + sentiment_weight * default 0 (future_sentiment !! d)))
    future_dates prices.

(** Step 10: Gaussian noise of scale [volatility_factor] from a stream of
    standard normal draws; NumPy raises on a negative scale. *)
Definition add_noise (standard_normal : nat → Q) (prices : list Q) : option (list Q) :=
  let volatility_factor := np_mean prices * (5 # 1000) in
  if Qlt_le_dec volatility_factor 0 then None
  else Some (zip_with (λ i p, p + (0 + volatility_factor * standard_normal i))
               (seq 0 (length prices)) prices).

(** The floor [np.maximum(prices, 0.01)]. *)
Definition floor_prices (prices : list Q) : list Q := (λ p, Qmax p (1 # 100)) <$> prices.

(** ** The sentiment trend forecaster *)

(** [{d: v for d in future_dates}]. *)
Definition flat_forecast (v : Q) (future_dates : list Z) : gmap Z Q :=
  foldl (λ m d, <[d := v]> m) ∅ future_dates.

(** The order of [sorted] on (date, score) items with distinct dates. *)
Definition item_le (a b : Z * Q) : Prop := (a.1 ≤ b.1)%Z.

#[global] Instance item_le_dec : RelDecision item_le :=
  λ a b, decide (a.1 ≤ b.1)%Z.

(** [np.clip(x, lo, hi)]. *)
Definition np_clip (lo hi x : Q) : Q := Qmin (Qmax x lo) hi.

Section Sentiment.

(** The state and environment the method reads. *)
Variable today : Z.
Variable sentiment_data : gmap Z Q.

(** scikit-learn's [LinearRegression]: fitting on the ordinals and the
    scores gives the prediction at an ordinal; [None] is a fit or a
    prediction that raises. *)
Variable linear_regression : list Z → list Q → option (Z → Q).

(** [sorted(self.sentiment_data.items())]. *)
Definition sorted_items : list (Z * Q) :=
  merge_sort item_le (map_to_list sentiment_data).

Definition recent_cutoff : Z := (today - 30)%Z.

(** The observations on or after the cutoff, oldest first. *)
Definition recent_items : list (Z * Q) :=
  filter (λ ds : Z * Q, (recent_cutoff ≤ ds.1)%Z) sorted_items.

Definition fallback_sentiment : Q :=
  let hist_sentiments := recent_items.*2 in
  if bool_decide (hist_sentiments ≠ []) then np_mean hist_sentiments
  else if bool_decide (sentiment_data ≠ ∅)
       then np_mean (map_to_list sentiment_data).*2
       else 0.

Definition forecast_future_sentiment (future_dates : list Z) : gmap Z Q :=
  if bool_decide (sentiment_data = ∅) then flat_forecast 0 future_dates
  else
    let hist_dates_ord := recent_items.*1 in
    let hist_sentiments := recent_items.*2 in
    if (length hist_dates_ord <? 5)%nat
    then flat_forecast fallback_sentiment future_dates
    else
      match linear_regression hist_dates_ord hist_sentiments with
      | Some model =>
          let predicted_sentiments := np_clip (-1) 1 <$> (model <$> future_dates) in
          foldl (λ m dp, <[dp.1 := dp.2]> m) ∅ (zip future_dates predicted_sentiments)
      | None => flat_forecast (np_mean hist_sentiments) future_dates
      end.

End Sentiment.

(** Ordinary least squares of the scores against the ordinals, the model
    [LinearRegression] fits on one feature. *)
Definition ols (xs : list Z) (ys : list Q) : option (Z → Q) :=
  let x := inject_Z <$> xs in
  let xbar := np_mean x in
  let ybar := np_mean ys in
  let sxy := Rolling.Qsum (zip_with (λ a b, (a - xbar) * (b - ybar)) x ys) in
  let sxx := Rolling.Qsum ((λ a, (a - xbar) * (a - xbar)) <$> x) in
  let coef := sxy / sxx in
  let intercept := ybar - coef * xbar in
  Some (λ d, coef * inject_Z d + intercept).

(** ** [predict_future] *)

(** What a call does: it returns a value or raises to its caller. *)
Inductive outcome (A : Type) : Type :=
  | Returned (a : A)
  | Raised.

Arguments Returned {A} a.
Arguments Raised {A}.

Definition of_option {A} (o : option A) : outcome A :=
  match o with Some a => Returned a | None => Raised end.

Definition prediction_days : nat := 10%nat.

(** [training_data["close"].iloc[-1]] on the table as given (names are not
    lower-cased here).  An absent name is a KeyError; a repeated name
    selects a frame, on which the arithmetic that follows fails. *)
Definition last_actual_close (training_data : DataFrame) : option Q :=
  match filter (λ nc : string * list Q, nc.1 = "close"%string) (columns training_data) with
  | [nc] => last nc.2
  | _ => None
  end.

Section Pipeline.

Variable sqrt : Q → Q.

(** The sequence model: building and fitting it on the training pairs
    gives the one-step predictor; [None] is a training that raises. *)
Variable train : list (list (list Q) * Q) → option (list (list Q) → Q).

(** The standard normal draws behind [np.random.normal]. *)
Variable standard_normal : nat → Q.

Variable today : Z.
Variable PERFORM_SENTIMENT : bool.
Variable sentiment_data : gmap Z Q.
Variable linear_regression : list Z → list Q → option (Z → Q).

(** The date the failure paths count from. *)
Definition last_date_or_today (training_data : DataFrame) : Z :=
  if negb (df_empty training_data)
  then default today (last (index training_data))
  else today.

(** The value both failure paths return. *)
Definition insufficient_data (training_data : DataFrame) : outcome (list Z * list Q) :=
  let last_date := last_date_or_today training_data in
  let future_dates := bdate_range (last_date + 1) prediction_days in
  Returned (future_dates, []).

(** Step 9 on the adjusted path. *)
Definition apply_sentiment (future_dates : list Z) (adjusted_prices : list Q) : list Q :=
  if PERFORM_SENTIMENT && bool_decide (sentiment_data ≠ ∅) then
    let future_sentiment :=
      forecast_future_sentiment today sentiment_data linear_regression future_dates in
    if bool_decide (future_sentiment ≠ ∅)
    then sentiment_blend future_sentiment future_dates adjusted_prices
    else adjusted_prices
  else adjusted_prices.

(** Steps 4 to 10, once there is at least one training pair. *)
Definition forecast (training_data : DataFrame) (time_step : nat)
    (close_scaler : MinMaxScaler.t) (scaled_data : list (list Q))
    (train_set : list (list (list Q) * Q)) : option (list Z * list Q) :=
  model ← train train_set;
  if (time_step =? 0)%nat then None
  else
    let last_sequence := drop (length scaled_data - time_step) scaled_data in
    st ← roll model last_sequence prediction_days;
    let predicted_scaled_prices := st.1 in
    let predicted_prices := inverse_transform close_scaler predicted_scaled_prices in
    last_actual_price ← last_actual_close training_data;
    adjusted_prices ← continuity_shift last_actual_price predicted_prices;
    last_date ← last (index training_data);
    let future_dates := bdate_range (last_date + 1) prediction_days in
    let final_adjusted_prices := apply_sentiment future_dates adjusted_prices in
    noisy_final_prices ← add_noise standard_normal final_adjusted_prices;
    Some (future_dates, floor_prices noisy_final_prices).

Definition predict_future (training_data : DataFrame) (time_step : nat)
    : outcome (list Z * list Q) :=
  let vol_window := 20%nat in
  let ema_window := 20%nat in
  let features_df := compute_indicators sqrt training_data vol_window ema_window in
  if (length features_df =? 0)%nat then insufficient_data training_data
  else
    match MinMaxScaler.fit_transform features_df with
    | None => Raised
    | Some (scaler, scaled_data) =>
        match scaler !! 0%nat, make_windows time_step scaled_data with
        | Some close_scaler, Some train_set =>
            if (length train_set =? 0)%nat then insufficient_data training_data
            else of_option (forecast training_data time_step close_scaler
                              scaled_data train_set)
        | _, _ => Raised
        end
    end.

End Pipeline.

(** ** [get_stock_data] *)

(** What [yf.download] gives: an exception, [None], or a table.  A column
    label of the table is a tuple of one or more levels (a plain label
    has one); the program reads its first level. *)
Inductive download :=
  | DownloadRaises
  | DownloadNone
  | Downloaded (idx : list Z) (cols : list ((string * list string) * list Q)).

(** [col[mask]]: the entries of a column at the rows the mask keeps. *)
Definition select_rows {A} (mask : list bool) (col : list A) : list A :=
  snd <$> filter (λ mb : bool * A, mb.1 = true) (zip mask col).

Definition stock_required_cols : list string :=
  ["open"; "high"; "low"; "close"; "volume"]%string.

(** The table [get_stock_data] returns for a download and an end date;
    [Frame [] []] is [pd.DataFrame()].  A table here has plain labels, so
    the download is held under the first level of its labels from the
    start; the program takes that level when it lower-cases the names,
    and returns an empty download as it came. *)
Definition get_stock_data (result : download) (end_date : Z) : DataFrame :=
  match result with
  | DownloadRaises => Frame [] []
  | DownloadNone => Frame [] []
  | Downloaded idx cols =>
      let data := Frame idx ((λ lc, (lc.1.1, lc.2)) <$> cols) in
      if df_empty data then data
      else
        let mask := (λ d, bool_decide (d ≤ end_date)%Z) <$> index data in
        let data :=
          Frame (select_rows mask (index data))
            ((λ nc, (nc.1, select_rows mask nc.2)) <$> columns data) in
        if df_empty data then Frame [] []
        else
          let data := Frame (index data) (lower_columns (columns data)) in
          let missing_cols :=
            filter (λ c, c ∉ (columns data).*1) stock_required_cols in
          if bool_decide (missing_cols = []) then data else Frame [] []
  end.

(** ** [get_stock_symbol] *)

(** A Python [str] is the list of its characters.  The characters are
    ASCII, codes 0 to 127; a character outside ASCII is outside the
    model. *)

(** [c.isspace()], also the class [\s] of [re]. *)
Definition isspace (c : Ascii.ascii) : bool :=
  let n := Ascii.nat_of_ascii c in
  (((9 <=? n) && (n <=? 13)) || ((28 <=? n) && (n <=? 32)))%nat.

(** The class [\d]. *)
Definition isdigit (c : Ascii.ascii) : bool :=
  let n := Ascii.nat_of_ascii c in ((48 <=? n) && (n <=? 57))%nat.

(** The class [[A-Z]]. *)
Definition is_upper_letter (c : Ascii.ascii) : bool :=
  let n := Ascii.nat_of_ascii c in ((65 <=? n) && (n <=? 90))%nat.

Definition is_lower_letter (c : Ascii.ascii) : bool :=
  let n := Ascii.nat_of_ascii c in ((97 <=? n) && (n <=? 122))%nat.

Definition upper_char (c : Ascii.ascii) : Ascii.ascii :=
  if is_lower_letter c then Ascii.ascii_of_nat (Ascii.nat_of_ascii c - 32) else c.

(** [s.upper()]. *)
Definition str_upper (s : list Ascii.ascii) : list Ascii.ascii := upper_char <$> s.

Fixpoint lstrip (s : list Ascii.ascii) : list Ascii.ascii :=
  match s with
  | [] => []
  | c :: r => if isspace c then lstrip r else s
  end.

Definition rstrip (s : list Ascii.ascii) : list Ascii.ascii :=
  reverse (lstrip (reverse s)).

(** [s.strip()]. *)
Definition str_strip (s : list Ascii.ascii) : list Ascii.ascii := rstrip (lstrip s).

(** The longest prefix of characters in a class, and the rest. *)
Fixpoint span (p : Ascii.ascii → bool) (s : list Ascii.ascii)
    : list Ascii.ascii * list Ascii.ascii :=
  match s with
  | [] => ([], [])
  | c :: r => if p c then let '(a, b) := span p r in (c :: a, b) else ([], s)
  end.

Definition newline : Ascii.ascii := Ascii.ascii_of_nat 10.
Definition dot : Ascii.ascii := Ascii.ascii_of_nat 46.

(** [$] matches at the end and before a newline that ends the string. *)
Definition before_final_newline (s : list Ascii.ascii) : list Ascii.ascii :=
  match reverse s with
  | c :: r => if bool_decide (c = newline) then reverse r else s
  | [] => s
  end.

Definition nonempty {A} (l : list A) : bool := negb (length l =? 0)%nat.

(** [re.match(r"^(\d+)([A-Z]+)$", s)]: the two groups of the match. *)
Definition match_no_space (s : list Ascii.ascii)
    : option (list Ascii.ascii * list Ascii.ascii) :=
  let '(number_part, letter_part) := span isdigit (before_final_newline s) in
  if nonempty number_part && nonempty letter_part && forallb is_upper_letter letter_part
  then Some (number_part, letter_part) else None.

(** [re.match(r"^(\d+)\s+([A-Z]+)$", s)]. *)
Definition match_space (s : list Ascii.ascii)
    : option (list Ascii.ascii * list Ascii.ascii) :=
  let '(number_part, rest) := span isdigit (before_final_newline s) in
  let '(spaces, letter_part) := span isspace rest in
  if nonempty number_part && nonempty spaces && nonempty letter_part
     && forallb is_upper_letter letter_part
  then Some (number_part, letter_part) else None.

(** The normalisation at the end of [get_stock_symbol]. *)
Definition normalize_symbol (symbol : list Ascii.ascii) : list Ascii.ascii :=
  if bool_decide (dot ∈ symbol) then symbol
  else
    match match_no_space symbol with
    | Some (number_part, letter_part) => number_part ++ dot :: letter_part
    | None =>
        match match_space symbol with
        | Some (number_part, letter_part) => number_part ++ dot :: letter_part
        | None => symbol
        end
    end.

(** The same normalisation as [run_analysis_steps] writes it. *)
Definition normalize_symbol_inline (symbol : list Ascii.ascii) : list Ascii.ascii :=
  if negb (bool_decide (dot ∈ symbol)) then
    match match_no_space symbol with
    | Some (number_part, letter_part) => number_part ++ dot :: letter_part
    | None =>
        match match_space symbol with
        | Some (number_part, letter_part) => number_part ++ dot :: letter_part
        | None => symbol
        end
    end
  else symbol.

(** How the symbol dialog ends. *)
Inductive symbol_entry :=
  | Cancelled
  | Entered (symbol : list Ascii.ascii)
  | Prompting.

(** [get_stock_symbol] against the answers the user gives to the
    successive prompts ([None] is the Cancel button); with no answer left
    the prompt is still open. *)
Fixpoint get_stock_symbol (answers : list (option (list Ascii.ascii))) : symbol_entry :=
  match answers with
  | [] => Prompting
  | None :: _ => Cancelled
  | Some symbol_input :: rest =>
      let symbol := str_upper (str_strip symbol_input) in
      if nonempty symbol then Entered (normalize_symbol symbol)
      else get_stock_symbol rest
  end.

(** ** [get_company_name] *)

(** A value of the [info] dictionary: a string or [None]. *)
Inductive pyval :=
  | PyNone
  | PyStr (s : string).

(** What [yf.Ticker(symbol).info] gives: an exception, a value that is
    not a dictionary, or a dictionary. *)
Inductive ticker_info :=
  | InfoRaises
  | InfoOther
  | InfoDict (info : gmap string pyval).

(** [name if name else symbol]. *)
Definition name_or (symbol : string) (name : pyval) : string :=
  match name with
  | PyStr s => if bool_decide (s = ""%string) then symbol else s
  | PyNone => symbol
  end.

Definition get_company_name (stock_info : ticker_info) (symbol : string) : string :=
  match stock_info with
  | InfoDict info =>
      if bool_decide (info ≠ ∅) then
        let name :=
          default (default (PyStr symbol) (info !! "shortName"%string))
            (info !! "longName"%string) in
        name_or symbol name
      else symbol
  | InfoOther => symbol
  | InfoRaises => symbol
  end.

(** ** [get_news_sentiment] *)

(** [sum(scores)]. *)
Definition py_sum (scores : list Q) : Q := foldl Qplus 0 scores.

(** What a date parse gives: an exception the function catches, [None],
    or a key of the sentiment dictionary. *)
Inductive parsed (K : Type) :=
  | ParseRaises
  | ParseNone
  | ParseKey (k : K).

Arguments ParseRaises {K}.
Arguments ParseNone {K}.
Arguments ParseKey {K} k.

(** One row of the article table, with what the steps outside the program
    give for it: the downloaded and parsed text, the compound score of
    that text, and the two attempts at the publication date. *)
Record article (K : Type) := Article {
  art_url : option string;
  art_text : option string;
  art_compound : option Q;
  art_seendate : bool;
  art_date_format : parsed K;
  art_date_generic : parsed K
}.

Arguments Article {K}.
Arguments art_url {K}.
Arguments art_text {K}.
Arguments art_compound {K}.
Arguments art_seendate {K}.
Arguments art_date_format {K}.
Arguments art_date_generic {K}.

Section News.

(** The keys of the dictionary: what [.date()] returns. *)
Context {K : Type} `{Countable K}.

(** The state of the article loop. *)
Record news_state := NewsState {
  sentiments : gmap K (list Q);
  processed_urls : gset string;
  article_urls : list string
}.

(** [url.startswith(('http://', 'https://'))]. *)
Definition valid_url (url : string) : bool :=
  String.prefix "http://" url || String.prefix "https://" url.

(** The publication date of a row, when the row has one. *)
Definition pub_date (a : article K) : option K :=
  if art_seendate a then
    match art_date_format a with
    | ParseRaises => None
    | ParseKey k => Some k
    | ParseNone =>
        match art_date_generic a with
        | ParseKey k => Some k
        | _ => None
        end
    end
  else None.

(** [sentiments.setdefault(pub_date, []).append(score)]. *)
Definition add_score (k : K) (score : Q) (m : gmap K (list Q)) : gmap K (list Q) :=
  <[k := default [] (m !! k) ++ [score]]> m.

(** One pass of the loop over the rows. *)
Definition process_article (st : news_state) (a : article K) : news_state :=
  match art_url a with
  | None => st
  | Some url =>
      if negb (valid_url url) then st
      else if bool_decide (url ∈ processed_urls st) then st
      else
        let st1 := NewsState (sentiments st) ({[url]} ∪ processed_urls st)
                     (article_urls st) in
        match art_text a with
        | None => st1
        | Some text =>
            if (String.length text <? 100)%nat then st1
            else
              let st2 := NewsState (sentiments st1) (processed_urls st1)
                           (article_urls st1 ++ [url]) in
              match art_compound a with
              | None => st2
              | Some score =>
                  match pub_date a with
                  | None => st2
                  | Some d =>
                      NewsState (add_score d score (sentiments st2))
                        (processed_urls st2) (article_urls st2)
                  end
              end
        end
  end.

(** The daily average. *)
Definition daily_mean (scores : list Q) : Q :=
  py_sum scores / inject_Z (Z.of_nat (length scores)).

(** The map returned and the list [self.article_urls] left behind.
    [articles_df] is the result of the GDELT search, [None] when it
    raises; [old_urls] is the list from before the call. *)
Definition get_news_sentiment (PERFORM_SENTIMENT : bool) (old_urls : list string)
    (articles_df : option (list (article K))) : gmap K Q * list string :=
  if negb PERFORM_SENTIMENT then (∅, old_urls)
  else
    match articles_df with
    | None => (∅, [])
    | Some [] => (∅, [])
    | Some rows =>
        let st := foldl process_article (NewsState ∅ ∅ []) rows in
        (daily_mean <$> sentiments st, article_urls st)
    end.

End News.

(** ** Sample inputs *)

Definition sample_dates (n : nat) : list Z :=
  (λ i, (738000 + Z.of_nat i)%Z) <$> seq 0 n.

(** Closes that rise, or fall, by 1 a day from 100. *)
Definition rising_closes (n : nat) : list Q :=
  (λ i, inject_Z (100 + Z.of_nat i)) <$> seq 0 n.

Definition falling_closes (n : nat) : list Q :=
  (λ i, inject_Z (100 - Z.of_nat i)) <$> seq 0 n.

(** A price table around the given closes, with volume 1000 on every
    row. *)
Definition sample_frame (closes : list Q) : DataFrame :=
  Frame (sample_dates (length closes))
    [("close"%string, closes);
     ("high"%string, (λ c, c + 1) <$> closes);
     ("low"%string, (λ c, c - 1) <$> closes);
     ("volume"%string, (λ _, 1000) <$> closes)].

(** The same table with the volume 2^62 on every row. *)
Definition heavy_frame (closes : list Q) : DataFrame :=
  Frame (sample_dates (length closes))
    [("close"%string, closes);
     ("high"%string, (λ c, c + 1) <$> closes);
     ("low"%string, (λ c, c - 1) <$> closes);
     ("volume"%string, (λ _, inject_Z (2 ^ 62)) <$> closes)].

Definition sample_matrix : list (list Q) := [[1; 10]; [2; 20]; [3; 30]].

(** A sequence model whose prediction is the last target of the window
    plus one tenth. *)
Definition sample_train (train_set : list (list (list Q) * Q))
    : option (list (list Q) → Q) :=
  Some (λ w, default 0 (last w ≫= head) + (1 # 10)).

Definition sample_sentiment : gmap Z Q := {[ 738000%Z := 1 # 2 ]}.

(** One old observation, of 40 days before 738010, and two recent ones. *)
Definition sample_sentiment_mixed : gmap Z Q :=
  {[ 737970%Z := 1; 738008%Z := 1 # 2; 738009%Z := 0 ]}.

(** The result of a run of the pipeline, the empty forecast standing for
    an exception. *)
Definition returned_or_empty (o : outcome (list Z * list Q)) : list Z * list Q :=
  match o with
  | Returned r => r
  | Raised => ([], [])
  end.

(** The forecast of 23 rising closes with windows of 2 rows, the blend
    off and noise draws of 0. *)
Definition sample_forecast : list Z * list Q :=
  returned_or_empty
    (predict_future (λ x, x) sample_train (λ _, 0) 738030 false ∅ ols
       (sample_frame (rising_closes 23)) 2).

(** The scalers and the scaled rows of [sample_matrix]. *)
Definition sample_scaled : list MinMaxScaler.t * list (list Q) :=
  default ([], []) (MinMaxScaler.fit_transform sample_matrix).

Definition sample_close_scaler : MinMaxScaler.t :=
  default (MinMaxScaler.Scaler 0 1) (sample_scaled.1 !! 0%nat).

(** The table of 23 rising closes with its close column named
    [Close]. *)
Definition sample_frame_capitalised : DataFrame :=
  Frame (sample_dates 23)
    [("Close"%string, rising_closes 23);
     ("high"%string, (λ c, c + 1) <$> rising_closes 23);
     ("low"%string, (λ c, c - 1) <$> rising_closes 23);
     ("volume"%string, (λ _, 1000) <$> rising_closes 23)].

(** An article of 120 characters, scored 0.5 and dated 738000, and one scored -1
    whose URL is no web address. *)
Definition sample_article : article Z :=
  Article (Some "https://example.org/a"%string)
    (Some (String.string_of_list_ascii (replicate 120 (Ascii.ascii_of_nat 97))))
    (Some (1 # 2)) true (ParseKey 738000%Z) ParseNone.

Definition sample_article_no_url : article Z :=
  Article (Some "ftp://example.org/b"%string)
    (Some (String.string_of_list_ascii (replicate 120 (Ascii.ascii_of_nat 98))))
    (Some (-1)) true (ParseKey 738001%Z) ParseNone.

(** ** Predicates used in the statements *)

(** A value that is missing or not negative. *)
Definition nonneg_opt (o : option Q) : Prop := ∀ q, o = Some q → 0 <= q.

(** The invariant of the exponentially weighted mean on non-negative
    input. *)
Definition ewm_inv (st : Series.ewm_state) : Prop :=
  nonneg_opt (Series.weighted st) ∧ 0 <= Series.old_wt st.

(** The value of the RSI at one position, from the two smoothed averages
    there: what [compute_rsi] computes element by element. *)
Definition rsi_point (g l : option Q) : Q :=
  match g, l with
  | Some g, Some l => if Qeq_bool l 0 then 100 else 100 - 100 / (1 + g / l)
  | _, _ => 100
  end.

(** A value that is missing or lies between two bounds. *)
Definition within_opt (lo hi : Q) (o : option Q) : Prop :=
  ∀ q, o = Some q → lo <= q <= hi.

Definition ewm_within (lo hi : Q) (st : Series.ewm_state) : Prop :=
  within_opt lo hi (Series.weighted st) ∧ 0 <= Series.old_wt st.

(** No white space at either end. *)
Definition trimmed (s : list Ascii.ascii) : Prop :=
  (∀ c, head s = Some c → isspace c = false)
  ∧ (∀ c, last s = Some c → isspace c = false).

(** The form of a symbol that [get_stock_symbol] returns. *)
Definition clean_symbol (s : list Ascii.ascii) : Prop :=
  s ≠ [] ∧ trimmed s ∧ Forall (λ c, is_lower_letter c = false) s.

Section NewsInvariants.
Context {K : Type} `{Countable K}.

(** What the loop keeps true of the URLs it lists. *)
Definition news_urls_inv (st : news_state (K := K)) : Prop :=
  NoDup (article_urls st)
  ∧ Forall (λ u, u ∈ processed_urls st ∧ valid_url u = true) (article_urls st)
  ∧ (size (sentiments st) ≤ length (article_urls st))%nat.

(** What it keeps true of the scores, when those of the articles lie
    between two bounds. *)
Definition news_scores_inv (lo hi : Q) (st : news_state (K := K)) : Prop :=
  map_Forall (λ _ l, l ≠ [] ∧ Forall (λ s, lo <= s <= hi) l) (sentiments st).

End NewsInvariants.

(** A number that is an integer. *)
Definition integral (q : Q) : Prop := inject_Z (Qfloor q) == q.

(** * Properties *)

(** ** The relative strength index *)

Section Ewm.
Variables (old_wt_factor new_wt : Q) (adjust : bool) (minp : nat).
Hypothesis factor_nonneg : 0 <= old_wt_factor.
Hypothesis new_wt_pos : 0 < new_wt.

Lemma ewm_step_inv (st : Series.ewm_state) (cur : option Q) :
  ewm_inv st → nonneg_opt cur →
  ewm_inv (Series.ewm_step old_wt_factor new_wt adjust st cur).
Proof.
  intros [Hw Ho] Hc. unfold Series.ewm_step.
  destruct (Series.weighted st) as [w|] eqn:Hwt.
  - specialize (Hw w eq_refl).
    assert (0 <= Series.old_wt st * old_wt_factor) as How by nra.
    destruct cur as [c|].
    + specialize (Hc c eq_refl). split; simpl.
      * intros q [= <-]. destruct (Qeq_bool w c); [done|].
        apply Qle_shift_div_l; nra.
      * destruct adjust; lra.
    + split; simpl; [by intros q [= <-]|done].
  - split; simpl; done.
Qed.

Lemma ewm_out_nonneg (st : Series.ewm_state) :
  ewm_inv st → nonneg_opt (Series.ewm_out minp st).
Proof.
  intros [Hw _]. unfold Series.ewm_out. destruct (minp <=? _)%nat; [done|].
  by intros q.
Qed.

Lemma ewm_loop_nonneg (st : Series.ewm_state) (vals : list (option Q)) :
  ewm_inv st → Forall nonneg_opt vals →
  Forall nonneg_opt (Series.ewm_loop old_wt_factor new_wt adjust minp st vals).
Proof.
  intros Hst Hv. revert st Hst.
  induction Hv as [|cur vals Hc Hv IH]; intros st Hst; simpl; constructor.
  - by apply ewm_out_nonneg, ewm_step_inv.
  - by apply IH, ewm_step_inv.
Qed.
End Ewm.

Lemma ewm_mean_nonneg (com : Q) (adjust : bool) (min_periods : nat)
    (vals : list (option Q)) :
  0 <= com → Forall nonneg_opt vals →
  Forall nonneg_opt (Series.ewm_mean com adjust min_periods vals).
Proof.
  intros Hcom Hv. unfold Series.ewm_mean.
  destruct Hv as [|v0 vals Hv0 Hv]; [constructor|].
  assert (0 < 1 / (1 + com) ∧ 1 / (1 + com) <= 1) as [Ha1 Ha2].
  { split; [apply Qlt_shift_div_l; lra|apply Qle_shift_div_r; lra]. }
  assert (ewm_inv (Series.EwmState v0 (Series.is_observation v0) 1)) as Hst.
  { split; simpl; [done|lra]. }
  constructor.
  - by apply ewm_out_nonneg.
  - apply ewm_loop_nonneg; [lra|destruct adjust; lra|done..].
Qed.

Lemma rsi_gain_nonneg (series : list Q) : Forall nonneg_opt (rsi_gain series).
Proof.
  unfold rsi_gain, Series.clip_lower. apply Forall_fmap, Forall_forall.
  intros [x|] _ q; simpl; [|done]. intros [= <-]. destruct (Qlt_le_dec x 0); lra.
Qed.

Lemma rsi_loss_nonneg (series : list Q) : Forall nonneg_opt (rsi_loss series).
Proof.
  unfold rsi_loss, Series.neg, Series.clip_upper. rewrite <- list_fmap_compose.
  apply Forall_fmap, Forall_forall.
  intros [x|] _ q; simpl; [|done]. intros [= <-]. destruct (Qlt_le_dec 0 x); lra.
Qed.

Lemma period_com_nonneg (period : positive) : 0 <= inject_Z (Z.pos period) - 1.
Proof.
  assert (1 <= inject_Z (Z.pos period)); [|lra].
  rewrite <- (Zle_Qle 1). lia.
Qed.

Lemma bfill_all_some (s : list (option Q)) : Forall is_Some s → Series.bfill s = s.
Proof.
  induction 1 as [|x s [q ->] _ IH]; simpl; [done|]. by rewrite IH.
Qed.

Lemma compute_rsi_pointwise (series : list Q) (period : positive) :
  compute_rsi series period
  = zip_with (λ g l, Some (rsi_point g l))
      (rsi_avg_gain series period) (rsi_avg_loss series period).
Proof.
  unfold compute_rsi.
  set (ag := rsi_avg_gain series period). set (al := rsi_avg_loss series period).
  assert (Series.fillna 100 (rsi_of_rs <$> Series.div ag (Series.replace_zero_nan al))
          = zip_with (λ g l, Some (rsi_point g l)) ag al) as ->.
  { clearbody ag al. revert al. induction ag as [|g ag IH]; intros [|l al]; simpl; try done.
    f_equal; [|apply IH].
    destruct g as [g|], l as [l|]; simpl; try done. by destruct (Qeq_bool l 0). }
  apply bfill_all_some. apply Forall_forall. intros x Hx.
  apply elem_of_lookup_zip_with in Hx as (? & ? & ? & -> & _). eauto.
Qed.

Lemma rsi_point_range (g l : option Q) :
  nonneg_opt g → nonneg_opt l → 0 <= rsi_point g l <= 100.
Proof.
  intros Hg Hl. unfold rsi_point.
  destruct g as [g|]; [|lra]. destruct l as [l|]; [|lra].
  specialize (Hg g eq_refl). specialize (Hl l eq_refl).
  destruct (Qeq_bool l 0) eqn:Hz; [lra|].
  apply Qeq_bool_neq in Hz.
  assert (0 < l) as Hlpos.
  { destruct (Qlt_le_dec 0 l) as [|Hle]; [done|]. exfalso. apply Hz. lra. }
  assert (0 <= g / l) as Hrs by (apply Qle_shift_div_l; lra).
  assert (0 < 100 / (1 + g / l)) by (apply Qlt_shift_div_l; lra).
  assert (100 / (1 + g / l) <= 100) by (apply Qle_shift_div_r; nra).
  lra.
Qed.

(** Every value of the RSI is defined and lies in [0, 100]. *)
Lemma compute_rsi_range (series : list Q) (period : positive) :
  Forall (λ o, ∃ q, o = Some q ∧ 0 <= q <= 100) (compute_rsi series period).
Proof.
  rewrite compute_rsi_pointwise. apply Forall_forall. intros x Hx.
  apply elem_of_lookup_zip_with in Hx as (i & g & l & -> & Hg & Hl).
  eexists. split; [done|]. apply rsi_point_range.
  - pose proof (ewm_mean_nonneg _ true (Pos.to_nat period) _
                  (period_com_nonneg period) (rsi_gain_nonneg series)) as H.
    eapply Forall_lookup_1 in H; eauto.
  - pose proof (ewm_mean_nonneg _ true (Pos.to_nat period) _
                  (period_com_nonneg period) (rsi_loss_nonneg series)) as H.
    eapply Forall_lookup_1 in H; eauto.
Qed.

(** The number of observations counted after [k] more values is at most
    [k] more. *)
Lemma ewm_step_nobs (f nw : Q) (adjust : bool) (st : Series.ewm_state) (cur : option Q) :
  (Series.nobs (Series.ewm_step f nw adjust st cur) ≤ S (Series.nobs st))%nat.
Proof.
  unfold Series.ewm_step.
  destruct (Series.weighted st), cur; simpl; lia.
Qed.

Lemma ewm_loop_warmup (f nw : Q) (adjust : bool) (minp : nat)
    (st : Series.ewm_state) (vals : list (option Q)) (i : nat) :
  (Series.nobs st + S i < minp)%nat → (i < length vals)%nat →
  Series.ewm_loop f nw adjust minp st vals !! i = Some None.
Proof.
  revert st i. induction vals as [|cur vals IH]; intros st i Hn Hi; simpl in *; [lia|].
  pose proof (ewm_step_nobs f nw adjust st cur) as Hstep.
  destruct i as [|i]; simpl.
  - unfold Series.ewm_out.
    destruct (Nat.leb_spec minp (Series.nobs (Series.ewm_step f nw adjust st cur))); [lia|done].
  - apply IH; lia.
Qed.

Lemma ewm_mean_warmup (com : Q) (adjust : bool) (min_periods : nat)
    (vals : list (option Q)) (i : nat) :
  head vals = Some None → (i < min_periods)%nat → (i < length vals)%nat →
  Series.ewm_mean com adjust min_periods vals !! i = Some None.
Proof.
  intros Hh Hi Hlen. destruct vals as [|v0 vals]; [done|]. injection Hh as ->.
  unfold Series.ewm_mean. destruct i as [|i]; simpl.
  - unfold Series.ewm_out. simpl. destruct (Nat.leb_spec (Nat.max min_periods 1) 0); [lia|done].
  - apply ewm_loop_warmup; simpl in *; lia.
Qed.

Lemma rsi_loss_head (series : list Q) :
  series ≠ [] → head (rsi_loss series) = Some None ∧ length (rsi_loss series) = length series.
Proof.
  destruct series as [|x s]; [done|]. intros _. split; [done|].
  unfold rsi_loss, Series.neg, Series.clip_upper, Series.diff, of_finite.
  rewrite !length_fmap.
  generalize (@None Q). generalize (x :: s). clear.
  induction l as [|y l IH]; intros prev; simpl; [done|]. by rewrite IH.
Qed.

Lemma rsi_gain_length (series : list Q) : length (rsi_gain series) = length series.
Proof.
  unfold rsi_gain, Series.clip_lower, Series.diff, of_finite. rewrite length_fmap.
  generalize (@None Q).
  induction series as [|y l IH]; intros prev; simpl; [done|]. by rewrite IH.
Qed.

Lemma ewm_mean_length (com : Q) (adjust : bool) (min_periods : nat) (vals : list (option Q)) :
  length (Series.ewm_mean com adjust min_periods vals) = length vals.
Proof.
  unfold Series.ewm_mean. destruct vals as [|v0 vals]; [done|]. simpl. f_equal.
  generalize (Series.EwmState v0 (Series.is_observation v0) 1).
  induction vals as [|c vals IH]; intros st; simpl; [done|]. by rewrite IH.
Qed.

(** During the first [period] rows the smoothed average loss is undefined
    and the RSI is 100, whatever the prices. *)
Lemma compute_rsi_warmup (series : list Q) (period : positive) (i : nat) :
  (i < Pos.to_nat period)%nat → (i < length series)%nat →
  rsi_avg_loss series period !! i = Some None
  ∧ compute_rsi series period !! i = Some (Some 100).
Proof.
  intros Hi Hlen.
  assert (series ≠ []) as Hne by (destruct series; simpl in *; [lia|done]).
  destruct (rsi_loss_head series Hne) as [Hhead Hll].
  assert (rsi_avg_loss series period !! i = Some None) as Hloss.
  { unfold rsi_avg_loss. apply ewm_mean_warmup; [done|done|lia]. }
  split; [done|].
  rewrite compute_rsi_pointwise.
  destruct (lookup_lt_is_Some_2 (rsi_avg_gain series period) i) as [g Hg].
  { unfold rsi_avg_gain. rewrite ewm_mean_length, rsi_gain_length. done. }
  rewrite lookup_zip_with, Hg, Hloss. simpl. by destruct g.
Qed.

(** Where both averages are defined and the loss is not zero, the RSI is
    below 100. *)
Lemma rsi_point_hundred (g l : option Q) :
  nonneg_opt g → nonneg_opt l →
  (rsi_point g l == 100 ↔ g = None ∨ l = None ∨ ∃ q, l = Some q ∧ q == 0).
Proof.
  intros Hg Hl. unfold rsi_point.
  destruct g as [g|]; [|split; [by left|reflexivity]].
  destruct l as [l|]; [|split; [right; by left|reflexivity]].
  specialize (Hg g eq_refl). specialize (Hl l eq_refl).
  destruct (Qeq_bool l 0) eqn:Hz.
  - apply Qeq_bool_eq in Hz. split; [|reflexivity]. intros _. right. right. eauto.
  - apply Qeq_bool_neq in Hz.
    assert (0 < l) as Hlpos.
    { destruct (Qlt_le_dec 0 l) as [|Hle]; [done|]. exfalso. apply Hz. lra. }
    assert (0 <= g / l) as Hrs by (apply Qle_shift_div_l; lra).
    assert (0 < 100 / (1 + g / l)) by (apply Qlt_shift_div_l; lra).
    split.
    + intros Heq. lra.
    + intros [?|[?|(q & [= <-] & Hq)]]; try done.
  Qed.

(** At every position the RSI is 100 exactly when one of the two averages
    is undefined there or the average loss is 0. *)
Lemma compute_rsi_hundred (series : list Q) (period : positive) (i : nat) (q : Q) :
  compute_rsi series period !! i = Some (Some q) →
  q == 100 ↔
    rsi_avg_gain series period !! i = Some None
    ∨ rsi_avg_loss series period !! i = Some None
    ∨ ∃ l, rsi_avg_loss series period !! i = Some (Some l) ∧ l == 0.
Proof.
  rewrite compute_rsi_pointwise. rewrite lookup_zip_with.
  destruct (rsi_avg_gain series period !! i) as [g|] eqn:Hg; simpl; [|done].
  destruct (rsi_avg_loss series period !! i) as [l|] eqn:Hl; simpl; [|done].
  intros [= <-].
  assert (nonneg_opt g) as Hgn.
  { pose proof (ewm_mean_nonneg _ true (Pos.to_nat period) _
                  (period_com_nonneg period) (rsi_gain_nonneg series)) as H.
    eapply Forall_lookup_1 in H; eauto. }
  assert (nonneg_opt l) as Hln.
  { pose proof (ewm_mean_nonneg _ true (Pos.to_nat period) _
                  (period_com_nonneg period) (rsi_loss_nonneg series)) as H.
    eapply Forall_lookup_1 in H; eauto. }
  rewrite (rsi_point_hundred g l Hgn Hln). split.
  - intros [->|[->|(x & -> & Hx)]]; [by left|right; by left|right; right; eauto].
  - intros [[= ->]|[[= ->]|(x & [= ->] & Hx)]]; [by left|right; by left|right; right; eauto].
Qed.

Lemma rsi_avg_loss_length (series : list Q) (period : positive) :
  length (rsi_avg_loss series period) = length series.
Proof.
  unfold rsi_avg_loss. rewrite ewm_mean_length.
  destruct series as [|x s]; [done|]. by apply rsi_loss_head.
Qed.

(** At a row where the smoothed average loss is 0, that is where no close
    has fallen so far, the RSI is exactly 100, whatever the average
    gain. *)
Theorem compute_rsi_no_loss (series : list Q) (period : positive) (i : nat) (l : Q) :
  rsi_avg_loss series period !! i = Some (Some l) → l == 0 →
  compute_rsi series period !! i = Some (Some 100).
Proof.
  intros Hl Hz.
  destruct (lookup_lt_is_Some_2 (rsi_avg_gain series period) i) as [g Hg].
  { unfold rsi_avg_gain. rewrite ewm_mean_length, rsi_gain_length.
    rewrite <- (rsi_avg_loss_length series period). by eapply lookup_lt_Some. }
  rewrite compute_rsi_pointwise, lookup_zip_with, Hg, Hl. simpl.
  unfold rsi_point. destruct g as [g|]; [|done].
  by rewrite (proj2 (Qeq_bool_iff l 0) Hz).
Qed.

(** Claim C4, on a concrete series.  The closes fall by 1 a day from 100
    to 85.  On rows 0 to 13 the smoothed average loss is undefined, not
    0, and the RSI is 100; on rows 14 and 15 the average loss is 1, the
    average gain is 0 and the RSI is 0.  All values lie in [0, 100]. *)
Theorem compute_rsi_falling_series :
  fmap (M := option) Qred <$> rsi_avg_loss (falling_closes 16) 14
  = replicate 14 None ++ [Some 1; Some 1]
  ∧ fmap (M := option) Qred <$> rsi_avg_gain (falling_closes 16) 14
    = replicate 14 None ++ [Some 0; Some 0]
  ∧ fmap (M := option) Qred <$> compute_rsi (falling_closes 16) 14
    = replicate 14 (Some 100) ++ [Some 0; Some 0].
Proof. vm_compute. done. Qed.

(** ** On-balance volume *)

Lemma StronglySorted_lookup_lt {A} (R : relation A) (l : list A) (i j : nat) (a b : A) :
  StronglySorted R l → (i < j)%nat → l !! i = Some a → l !! j = Some b → R a b.
Proof.
  intros Hs. revert i j. induction Hs as [|x l Hs IH Hall]; intros i j Hij Hi Hj; [done|].
  destruct j as [|j]; [lia|]. destruct i as [|i]; simpl in *.
  - injection Hi as <-. eapply Forall_lookup_1 in Hall; eauto.
  - eapply IH; [|done..]. lia.
Qed.

Lemma int64_wrap_small (z : Z) : (- 2 ^ 63 ≤ z < 2 ^ 63)%Z → int64_wrap z = z.
Proof. intros Hz. unfold int64_wrap. rewrite Z.mod_small; lia. Qed.

Lemma integral_inject_Z (z : Z) : integral (inject_Z z).
Proof. unfold integral. by rewrite Qfloor_Z. Qed.

Lemma is_int64_integral (q : Q) : is_int64 q = true → integral q.
Proof.
  unfold is_int64. intros H. apply andb_prop in H as [H _]. apply andb_prop in H as [H _].
  by apply Qeq_bool_iff in H.
Qed.

Lemma int64_column_integral (col : list Q) :
  int64_column col = true → Forall integral col.
Proof.
  unfold int64_column. intros H. apply Forall_forall. intros q Hq.
  apply is_int64_integral. rewrite forallb_forall in H. apply H.
  by apply list_elem_of_In.
Qed.

(** Within the range of int64 the sum and the difference are exact. *)
Lemma obv_add_exact (int64 : bool) (a b : Q) :
  (int64 = true → integral a ∧ integral b) →
  inject_Z (- 2 ^ 63) <= a + b → a + b < inject_Z (2 ^ 63) →
  obv_add int64 a b == a + b ∧ (int64 = true → integral (obv_add int64 a b)).
Proof.
  intros Hint Hlo Hhi. unfold obv_add. destruct int64; [|split; [reflexivity|done]].
  destruct (Hint eq_refl) as [Ha Hb]. unfold integral in Ha, Hb.
  assert (inject_Z (Qfloor a + Qfloor b) == a + b) as Hsum.
  { rewrite inject_Z_plus, Ha, Hb. reflexivity. }
  rewrite int64_wrap_small.
  - split; [done|]. intros _. apply integral_inject_Z.
  - split.
    + rewrite Zle_Qle, Hsum. done.
    + rewrite Zlt_Qlt, Hsum. done.
Qed.

Lemma obv_sub_exact (int64 : bool) (a b : Q) :
  (int64 = true → integral a ∧ integral b) →
  inject_Z (- 2 ^ 63) <= a - b → a - b < inject_Z (2 ^ 63) →
  obv_sub int64 a b == a - b ∧ (int64 = true → integral (obv_sub int64 a b)).
Proof.
  intros Hint Hlo Hhi. unfold obv_sub. destruct int64; [|split; [reflexivity|done]].
  destruct (Hint eq_refl) as [Ha Hb]. unfold integral in Ha, Hb.
  assert (inject_Z (Qfloor a - Qfloor b) == a - b) as Hsum.
  { unfold Z.sub. rewrite inject_Z_plus, inject_Z_opp, Ha, Hb. reflexivity. }
  rewrite int64_wrap_small.
  - split; [done|]. intros _. apply integral_inject_Z.
  - split.
    + rewrite Zle_Qle, Hsum. done.
    + rewrite Zlt_Qlt, Hsum. done.
Qed.

Lemma Qsum_cons (x : Q) (l : list Q) : Rolling.Qsum (x :: l) = x + Rolling.Qsum l.
Proof. reflexivity. Qed.

Lemma Qsum_nonneg (l : list Q) : Forall (λ v, 0 <= v) l → 0 <= Rolling.Qsum l.
Proof.
  induction 1 as [|x l Hx _ IH]; [done|]. rewrite Qsum_cons.
  set (t := Rolling.Qsum l) in *. lra.
Qed.

(** From a close above the previous one on every row and non-negative
    volumes whose total stays within int64, the running sum never falls
    below its starting value. *)
Lemma obv_from_rising (int64 : bool) (pc po : Q) (cs vs : list Q) :
  Sorted Qlt (pc :: cs) → Forall (λ v, 0 <= v) vs →
  (int64 = true → integral po ∧ Forall integral vs) →
  inject_Z (- 2 ^ 63) <= po → po + Rolling.Qsum vs < inject_Z (2 ^ 63) →
  StronglySorted Qle (obv_from int64 pc po cs vs)
  ∧ Forall (λ o, po <= o) (obv_from int64 pc po cs vs).
Proof.
  revert pc po vs. induction cs as [|c cs IH]; intros pc po vs Hs Hv Hint Hlo Hhi; simpl.
  { split; constructor. }
  destruct vs as [|v vs]; [split; constructor|].
  apply Sorted_inv in Hs as [Hs Hhd]. apply HdRel_inv in Hhd.
  apply Forall_cons in Hv as [Hv Hvs].
  rewrite Qsum_cons in Hhi. pose proof (Qsum_nonneg vs Hvs) as Hsum.
  set (t := Rolling.Qsum vs) in *.
  assert (obv_next int64 pc po c v = obv_add int64 po v) as Hnext.
  { unfold obv_next. destruct (Qlt_le_dec pc c); [done|lra]. }
  destruct (obv_add_exact int64 po v) as [Hstep Hinto]; [|lra|lra|].
  { intros Hi. destruct (Hint Hi) as [Hpo Hall]. split; [done|]. by inversion Hall. }
  rewrite Hnext. set (o := obv_add int64 po v) in *.
  destruct (IH c o vs Hs Hvs) as [IHs IHall].
  - intros Hi. split; [by apply Hinto|]. destruct (Hint Hi) as [_ Hall]. by inversion Hall.
  - lra.
  - fold t. lra.
  - split.
    + by constructor.
    + constructor; [lra|]. eapply Forall_impl; [exact IHall|]. simpl. intros x Hx. lra.
Qed.

Lemma obv_from_falling (int64 : bool) (pc po : Q) (cs vs : list Q) :
  Sorted (flip Qlt) (pc :: cs) → Forall (λ v, 0 <= v) vs →
  (int64 = true → integral po ∧ Forall integral vs) →
  po < inject_Z (2 ^ 63) → inject_Z (- 2 ^ 63) <= po - Rolling.Qsum vs →
  StronglySorted (flip Qle) (obv_from int64 pc po cs vs)
  ∧ Forall (λ o, o <= po) (obv_from int64 pc po cs vs).
Proof.
  revert pc po vs. induction cs as [|c cs IH]; intros pc po vs Hs Hv Hint Hhi Hlo; simpl.
  { split; constructor. }
  destruct vs as [|v vs]; [split; constructor|].
  apply Sorted_inv in Hs as [Hs Hhd]. apply HdRel_inv in Hhd. unfold flip in Hhd.
  apply Forall_cons in Hv as [Hv Hvs].
  rewrite Qsum_cons in Hlo. pose proof (Qsum_nonneg vs Hvs) as Hsum.
  set (t := Rolling.Qsum vs) in *.
  assert (obv_next int64 pc po c v = obv_sub int64 po v) as Hnext.
  { unfold obv_next. destruct (Qlt_le_dec pc c); [lra|].
    destruct (Qlt_le_dec c pc); [done|lra]. }
  destruct (obv_sub_exact int64 po v) as [Hstep Hinto]; [|lra|lra|].
  { intros Hi. destruct (Hint Hi) as [Hpo Hall]. split; [done|]. by inversion Hall. }
  rewrite Hnext. set (o := obv_sub int64 po v) in *.
  destruct (IH c o vs Hs Hvs) as [IHs IHall].
  - intros Hi. split; [by apply Hinto|]. destruct (Hint Hi) as [_ Hall]. by inversion Hall.
  - lra.
  - fold t. lra.
  - split.
    + by constructor.
    + constructor; [unfold flip; lra|]. eapply Forall_impl; [exact IHall|].
      simpl. intros x Hx. lra.
Qed.

Lemma obv_rising (closes volumes : list Q) :
  Sorted Qlt closes → Forall (λ v, 0 <= v) volumes →
  Rolling.Qsum volumes < inject_Z (2 ^ 63) →
  StronglySorted Qle (obv closes volumes).
Proof.
  intros Hs Hv Hsum. unfold obv. destruct closes as [|c0 cs]; [constructor|].
  destruct volumes as [|v0 vs]; [constructor|].
  set (int64 := int64_column (v0 :: vs)).
  assert (int64 = true → Forall integral (v0 :: vs)) as Hint
    by apply int64_column_integral.
  apply Forall_cons in Hv as [Hv0 Hv]. rewrite Qsum_cons in Hsum.
  destruct (obv_from_rising int64 c0 0 cs vs Hs Hv) as [H1 H2].
  - intros Hi. split; [apply (integral_inject_Z 0)|]. specialize (Hint Hi). by inversion Hint.
  - done.
  - set (t := Rolling.Qsum vs) in *. lra.
  - by constructor.
Qed.

Lemma obv_falling (closes volumes : list Q) :
  Sorted (flip Qlt) closes → Forall (λ v, 0 <= v) volumes →
  Rolling.Qsum volumes < inject_Z (2 ^ 63) →
  StronglySorted (flip Qle) (obv closes volumes).
Proof.
  intros Hs Hv Hsum. unfold obv. destruct closes as [|c0 cs]; [constructor|].
  destruct volumes as [|v0 vs]; [constructor|].
  set (int64 := int64_column (v0 :: vs)).
  assert (int64 = true → Forall integral (v0 :: vs)) as Hint
    by apply int64_column_integral.
  apply Forall_cons in Hv as [Hv0 Hv]. rewrite Qsum_cons in Hsum.
  destruct (obv_from_falling int64 c0 0 cs vs Hs Hv) as [H1 H2].
  - intros Hi. split; [apply (integral_inject_Z 0)|]. specialize (Hint Hi). by inversion Hint.
  - done.
  - assert (inject_Z (- 2 ^ 63) == - inject_Z (2 ^ 63)) as Hneg by reflexivity.
    set (t := Rolling.Qsum vs) in *. lra.
  - by constructor.
Qed.
Lemma handle_zeros_in_scale_pos (range : Q) : 0 < MinMaxScaler.handle_zeros_in_scale range.
Proof.
  unfold MinMaxScaler.handle_zeros_in_scale.
  destruct (Qlt_le_dec range (10 * MinMaxScaler.eps)) as [|Hle]; [lra|].
  assert (0 < 10 * MinMaxScaler.eps) by reflexivity. lra.
Qed.

Lemma fit1_scale_pos (c : list Q) (sc : MinMaxScaler.t) :
  MinMaxScaler.fit1 c = Some sc → 0 < MinMaxScaler.scale_ sc.
Proof.
  destruct c as [|x r]; [done|]. simpl. intros [= <-]. simpl.
  apply Qlt_shift_div_l; [apply handle_zeros_in_scale_pos|lra].
Qed.

Lemma transform1_mono (sc : MinMaxScaler.t) (x y : Q) :
  0 < MinMaxScaler.scale_ sc → x <= y →
  MinMaxScaler.transform1 sc x <= MinMaxScaler.transform1 sc y.
Proof. intros Hs Hxy. unfold MinMaxScaler.transform1. nra. Qed.

Lemma fit_transform1_sorted (R : relation Q) (c : list Q) :
  (∀ sc x y, 0 < MinMaxScaler.scale_ sc → R x y →
     R (MinMaxScaler.transform1 sc x) (MinMaxScaler.transform1 sc y)) →
  StronglySorted R c →
  StronglySorted R (default [] (MinMaxScaler.fit_transform1 c)).
Proof.
  intros Hmono Hs. unfold MinMaxScaler.fit_transform1.
  destruct (MinMaxScaler.fit1 c) as [sc|] eqn:Hfit; simpl; [|constructor].
  apply (StronglySorted_fmap _ R R); [|done].
  intros x y. apply Hmono. by eapply fit1_scale_pos.
Qed.

Lemma row_at_lookup (i j : nat) (cols : list (list (option Q))) (r : list Q) (c : list Q) :
  row_at i cols = Some r → cols !! j = Some (of_finite c) →
  ∃ a, c !! i = Some a ∧ r !! j = Some a.
Proof.
  unfold row_at. intros Hr%mapM_Some Hc.
  destruct (Forall2_lookup_l _ _ _ _ _ Hr Hc) as (a & Ha & Hjoin).
  exists a. split; [|done]. unfold of_finite in Hjoin.
  rewrite list_lookup_fmap in Hjoin. by destruct (c !! i); simplify_eq/=.
Qed.

(** Dropping rows keeps the order of a column. *)
Lemma dropna_column_sorted (R : relation Q) (cols : list (list (option Q)))
    (j : nat) (c : list Q) (idx : list nat) :
  cols !! j = Some (of_finite c) → StronglySorted R c → StronglySorted lt idx →
  StronglySorted R (MinMaxScaler.column j (omap (λ i, row_at i cols) idx)).
Proof.
  intros Hc Hs His. induction His as [|i idx His IH Hall]; [constructor|].
  change (omap (λ i, row_at i cols) (i :: idx))
    with (match row_at i cols with
          | Some r => r :: omap (λ i, row_at i cols) idx
          | None => omap (λ i, row_at i cols) idx
          end).
  destruct (row_at i cols) as [r|] eqn:Hr; [|done].
  unfold MinMaxScaler.column in *. rewrite fmap_cons. constructor; [done|].
  apply Forall_fmap, Forall_forall. intros r' Hr'. simpl.
  apply list_elem_of_omap in Hr' as (i' & Hi' & Hr').
  destruct (row_at_lookup _ _ _ _ _ Hr Hc) as (a & Ha & ->).
  destruct (row_at_lookup _ _ _ _ _ Hr' Hc) as (a' & Ha' & ->). simpl.
  eapply StronglySorted_lookup_lt; [exact Hs| |done..].
  eapply Forall_forall in Hall; eauto.
Qed.

Lemma seq_strongly_sorted (s n : nat) : StronglySorted lt (seq s n).
Proof.
  revert s. induction n as [|n IH]; intros s; simpl; constructor; [apply IH|].
  apply Forall_forall. intros x Hx%elem_of_seq. lia.
Qed.

Section Engine.
Variable sqrt : Q → Q.

Lemma compute_indicators_obv_sorted (R : relation Q) (df : DataFrame) (vw ew : nat)
    (closes volumes : list Q) :
  let data := drop_duplicated [] (lower_columns (columns df)) in
  get_col "close" data = Some closes → get_col "volume" data = Some volumes →
  StronglySorted R (obv_column closes volumes) →
  StronglySorted R (MinMaxScaler.column obv_index (compute_indicators sqrt df vw ew)).
Proof.
  intros data Hc Hv Hs. unfold compute_indicators. fold data. rewrite Hc, Hv.
  repeat case_match; try constructor.
  unfold dropna. eapply dropna_column_sorted; [|exact Hs|apply seq_strongly_sorted].
  reflexivity.
Qed.
End Engine.

Lemma constant_nonneg (volumes : list Q) (v : Q) :
  Forall (λ x, x == v) volumes → 0 <= v → Forall (λ x, 0 <= x) volumes.
Proof. intros H Hv. eapply Forall_impl; [exact H|]. simpl. intros x Hx. lra. Qed.

(** Claim C8 as stated fails: with the volume 2^62 on each of 12 rising
    closes the int64 running sum wraps around from the third row on, and
    the OBV column of the feature matrix falls from its first row to its
    second. *)
Lemma obv_overflow_not_monotone :
  ¬ (∀ (sqrt : Q → Q) (df : DataFrame) (vol_window ema_window : nat)
       (closes volumes : list Q) (v : Q),
       let data := drop_duplicated [] (lower_columns (columns df)) in
       get_col "close" data = Some closes →
       get_col "volume" data = Some volumes →
       Forall (λ x, x == v) volumes → 0 <= v →
       Sorted Qlt closes →
       StronglySorted Qle
         (MinMaxScaler.column obv_index
            (compute_indicators sqrt df vol_window ema_window))).
Proof.
  intros H.
  assert (StronglySorted Qle
            (MinMaxScaler.column obv_index
               (compute_indicators (λ x, x) (heavy_frame (rising_closes 12)) 2 2)))
    as Hs.
  { apply (H (λ x, x) (heavy_frame (rising_closes 12)) 2%nat 2%nat
             (rising_closes 12) ((λ _, inject_Z (2 ^ 62)) <$> rising_closes 12)
             (inject_Z (2 ^ 62))); [reflexivity|reflexivity| | |].
    - vm_compute. repeat constructor; reflexivity.
    - vm_compute. discriminate.
    - vm_compute. repeat constructor. }
  vm_compute in Hs.
  inversion Hs as [|x l _ Hall]. inversion Hall as [|y l' Hxy _].
  apply Hxy. reflexivity.
Qed.

(** Claim C8, amended.  The table has, after the normalisation of its
    column names, the closes [closes] and the volumes [volumes], every
    volume being the same non-negative [v], and the total volume is
    below 2^63, so that the int64 running sum does not wrap around.  If
    each close is above the one before, the running OBV, its min-max
    scaled column and the OBV column of the feature matrix are
    non-decreasing; if each close is below the one before, they are
    non-increasing. *)
Theorem obv_monotone (sqrt : Q → Q) (df : DataFrame) (vol_window ema_window : nat)
    (closes volumes : list Q) (v : Q) :
  let data := drop_duplicated [] (lower_columns (columns df)) in
  get_col "close" data = Some closes →
  get_col "volume" data = Some volumes →
  Forall (λ x, x == v) volumes → 0 <= v →
  Rolling.Qsum volumes < inject_Z (2 ^ 63) →
  (Sorted Qlt closes →
     StronglySorted Qle (obv closes volumes)
     ∧ StronglySorted Qle (obv_column closes volumes)
     ∧ StronglySorted Qle
         (MinMaxScaler.column obv_index
            (compute_indicators sqrt df vol_window ema_window)))
  ∧ (Sorted (flip Qlt) closes →
     StronglySorted (flip Qle) (obv closes volumes)
     ∧ StronglySorted (flip Qle) (obv_column closes volumes)
     ∧ StronglySorted (flip Qle)
         (MinMaxScaler.column obv_index
            (compute_indicators sqrt df vol_window ema_window))).
Proof.
  intros data Hc Hv Hconst Hpos Htotal.
  pose proof (constant_nonneg _ _ Hconst Hpos) as Hnn.
  split; intros Hs.
  - pose proof (obv_rising _ _ Hs Hnn Htotal) as Hobv.
    assert (StronglySorted Qle (obv_column closes volumes)) as Hcol.
    { apply fit_transform1_sorted; [|done]. intros. by apply transform1_mono. }
    split_and!; [done..|]. by eapply compute_indicators_obv_sorted.
  - pose proof (obv_falling _ _ Hs Hnn Htotal) as Hobv.
    assert (StronglySorted (flip Qle) (obv_column closes volumes)) as Hcol.
    { apply fit_transform1_sorted; [|done]. unfold flip. intros. by apply transform1_mono. }
    split_and!; [done..|]. by eapply compute_indicators_obv_sorted.
Qed.

Lemma obv_monotone_witness :
  StronglySorted Qle
    (MinMaxScaler.column obv_index
       (compute_indicators (λ x, x) (sample_frame (rising_closes 12)) 2 2))
  ∧ StronglySorted (flip Qle)
      (MinMaxScaler.column obv_index
         (compute_indicators (λ x, x) (sample_frame (falling_closes 12)) 2 2)).
Proof.
  split.
  - apply (obv_monotone (λ x, x) (sample_frame (rising_closes 12)) 2 2
             (rising_closes 12) ((λ _, 1000) <$> rising_closes 12) 1000);
      [reflexivity|reflexivity| | | |].
    + vm_compute. repeat constructor; reflexivity.
    + vm_compute. discriminate.
    + vm_compute. reflexivity.
    + vm_compute. repeat constructor.
  - apply (obv_monotone (λ x, x) (sample_frame (falling_closes 12)) 2 2
             (falling_closes 12) ((λ _, 1000) <$> falling_closes 12) 1000);
      [reflexivity|reflexivity| | | |].
    + vm_compute. repeat constructor; reflexivity.
    + vm_compute. discriminate.
    + vm_compute. reflexivity.
    + vm_compute. repeat constructor.
Defined.

(** The run of the claim's counterexample: the running OBV of the last
    three rows is 2^62, -2^63 and -2^62, scaled to 1, 0 and 1/3. *)
Example obv_overflow_sample :
  obv (rising_closes 4) ((λ _, inject_Z (2 ^ 62)) <$> rising_closes 4)
  = inject_Z <$> [0; 2 ^ 62; - 2 ^ 63; - 2 ^ 62]%Z
  ∧ Qred <$> MinMaxScaler.column obv_index
               (compute_indicators (λ x, x) (heavy_frame (rising_closes 12)) 2 2)
    = [1; 0; 1 # 3].
Proof. vm_compute. done. Qed.

(** The feature matrices of the two sample tables are not empty. *)
Example obv_column_sample :
  Qred <$> MinMaxScaler.column obv_index
             (compute_indicators (λ x, x) (sample_frame (rising_closes 12)) 2 2)
  = [9 # 11; 10 # 11; 1]
  ∧ Qred <$> MinMaxScaler.column obv_index
               (compute_indicators (λ x, x) (sample_frame (falling_closes 12)) 2 2)
    = [2 # 11; 1 # 11; 0].
Proof. vm_compute. done. Qed.

(** ** Window construction *)

Lemma cell_target_some (m : list (list Q)) (i : nat) :
  Forall (λ r, r ≠ []) m → (i < length m)%nat → ∃ r y, m !! i = Some r ∧ r !! 0%nat = Some y ∧ cell i 0 m = Some y.
Proof.
  intros Hne Hi.
  destruct (lookup_lt_is_Some_2 m i Hi) as [r Hr].
  pose proof (Forall_lookup_1 _ _ _ _ Hne Hr) as Hr0. simpl in Hr0.
  destruct r as [|y r']; [done|].
  exists (y :: r'), y. unfold cell. rewrite Hr. done.
Qed.

(** Claim C2.  For a scaled matrix of [L] rows, each with the target
    column, and a window length [T], the sequence step returns [L - T]
    pairs (natural subtraction: none when [L <= T]).  The pair built at
    [i], for [T <= i < L], sits at position [i - T]; its window is the
    rows [i - T] up to [i - 1] of the matrix, all columns, and its label
    is column 0 of row [i]. *)
Theorem make_windows_spec (time_step : nat) (scaled_data : list (list Q)) :
  Forall (λ r, r ≠ []) scaled_data →
  ∃ ws, make_windows time_step scaled_data = Some ws
    ∧ length ws = (length scaled_data - time_step)%nat
    ∧ ((time_step < length scaled_data)%nat → (0 < length ws)%nat)
    ∧ ((length scaled_data ≤ time_step)%nat → ws = [])
    ∧ ∀ i, (time_step ≤ i < length scaled_data)%nat →
        ∃ row y, scaled_data !! i = Some row ∧ row !! 0%nat = Some y
          ∧ ws !! (i - time_step)%nat = Some (slice (i - time_step) i scaled_data, y)
          ∧ length (slice (i - time_step) i scaled_data) = time_step
          ∧ ∀ j, (j < time_step)%nat →
              slice (i - time_step) i scaled_data !! j = scaled_data !! (i - time_step + j)%nat.
Proof.
  intros Hne. unfold make_windows.
  set (f := λ i, y ← cell i 0 scaled_data; Some (slice (i - time_step) i scaled_data, y)).
  assert (∀ i, (time_step ≤ i < length scaled_data)%nat → ∃ row y,
            scaled_data !! i = Some row ∧ row !! 0%nat = Some y
            ∧ f i = Some (slice (i - time_step) i scaled_data, y)) as Hf.
  { intros i [_ Hi]. destruct (cell_target_some _ _ Hne Hi) as (r & y & Hr & Hy & Hc).
    exists r, y. split_and!; [done..|]. unfold f. by rewrite Hc. }
  assert (is_Some (mapM f (seq time_step (length scaled_data - time_step)))) as [ws Hws].
  { apply mapM_is_Some, Forall_forall. intros i Hi%elem_of_seq.
    destruct (Hf i) as (? & ? & ? & ? & Hfi); [lia|]. eexists. exact Hfi. }
  exists ws. split; [done|].
  apply mapM_Some in Hws.
  pose proof (Forall2_length _ _ _ Hws) as Hlen. rewrite length_seq in Hlen.
  split; [done|]. split; [lia|]. split.
  { intros Hle. apply nil_length_inv. lia. }
  intros i Hi. destruct (Hf i Hi) as (row & y & Hrow & Hy & Hfi).
  exists row, y. split_and!; [done..| | |].
  - assert (seq time_step (length scaled_data - time_step) !! (i - time_step)%nat = Some i) as Hseq.
    { rewrite lookup_seq. split; [f_equal|]; lia. }
    destruct (Forall2_lookup_l _ _ _ _ _ Hws Hseq) as (w & Hw & Hfw).
    rewrite Hw. congruence.
  - unfold slice. rewrite length_take, length_drop. lia.
  - intros j Hj. unfold slice. rewrite lookup_take_lt by lia. rewrite lookup_drop. done.
Qed.

Lemma make_windows_spec_witness :
  ∃ ws, make_windows 2 sample_matrix = Some ws
    ∧ length ws = 1%nat
    ∧ ws !! 0%nat = Some ([[1; 10]; [2; 20]], 3).
Proof.
  assert (Forall (λ r : list Q, r ≠ []) sample_matrix) as H
    by (repeat constructor; discriminate).
  destruct (make_windows_spec 2 sample_matrix H) as (ws & Hws & Hlen & _ & _ & Hi).
  exists ws. split; [exact Hws|]. split; [exact Hlen|].
  destruct (Hi 2%nat) as (row & y & Hrow & Hy & Hk & _); [simpl; lia|].
  injection Hrow as <-. injection Hy as <-. exact Hk.
Defined.

(** A matrix of exactly [T] rows gives no window. *)
Example make_windows_exactly_T : make_windows 3 sample_matrix = Some [].
Proof. reflexivity. Qed.

(** ** The autoregressive rollout *)

Section Roll.
Variable predict : list (list Q) → Q.

Lemma roll_body_eq (ps : list Q) (b : list (list Q)) (r : list Q) :
  last b = Some r → r ≠ [] →
  roll_body predict (ps, b)
  = Some (ps ++ [predict b], drop 1 b ++ [<[0%nat := predict b]> r]).
Proof.
  intros Hl Hr. unfold roll_body. rewrite Hl. simpl.
  destruct r; [done|]. done.
Qed.

Lemma roll_loop_S (n : nat) (st : list Q * list (list Q)) :
  roll_loop predict (S n) st = roll_body predict st ≫= roll_loop predict n.
Proof. reflexivity. Qed.

Lemma roll_loop_add (n k : nat) (st : list Q * list (list Q)) :
  roll_loop predict (n + k) st = roll_loop predict n st ≫= roll_loop predict k.
Proof.
  revert st. induction n as [|n IH]; intros st; [done|].
  change (S n + k)%nat with (S (n + k)). rewrite !roll_loop_S.
  destruct (roll_body predict st) as [st'|]; simpl; [apply IH|done].
Qed.

Lemma roll_loop_succ (n : nat) (st : list Q * list (list Q)) :
  roll_loop predict (S n) st = roll_loop predict n st ≫= roll_body predict.
Proof.
  replace (S n) with (n + 1)%nat by lia. rewrite roll_loop_add.
  destruct (roll_loop predict n st) as [st'|]; [|done].
  change (roll_body predict st' ≫= roll_loop predict 0 = roll_body predict st').
  by destruct (roll_body predict st').
Qed.

Lemma roll_loop_prefix (n : nat) (ps ps' : list Q) (b b' : list (list Q)) :
  roll_loop predict n (ps, b) = Some (ps', b') → ps `prefix_of` ps'.
Proof.
  revert ps b. induction n as [|n IH]; intros ps b.
  - simpl. by intros [= -> ->].
  - rewrite roll_loop_S.
    destruct (roll_body predict (ps, b)) as [[ps1 b1]|] eqn:Hb; simpl; [|done].
    intros H%IH. unfold roll_body in Hb.
    destruct (last b) as [r|]; simpl in Hb; [|done].
    destruct (set_target _ r); simpl in Hb; [|done].
    injection Hb as <- <-. etrans; [|exact H]. by apply prefix_app_r.
Qed.

(** The state after [k] passes: [k] predictions, a window of the same
    length, and a last row whose non-target columns are those of the
    last row of the initial window. *)
Lemma roll_invariant (w : list (list Q)) (r0 : list Q) (k : nat) :
  last w = Some r0 → r0 ≠ [] →
  ∃ ps b r, roll predict w k = Some (ps, b)
    ∧ length ps = k ∧ length b = length w
    ∧ last b = Some r ∧ r ≠ []
    ∧ ∀ j, (0 < j)%nat → r !! j = r0 !! j.
Proof.
  intros Hl Hr0. unfold roll. induction k as [|k IH].
  - exists [], w, r0. done.
  - destruct IH as (ps & b & r & Hk & Hps & Hb & Hlast & Hr & Hcols).
    rewrite roll_loop_succ, Hk.
    change (Some (ps, b) ≫= roll_body predict) with (roll_body predict (ps, b)).
    rewrite (roll_body_eq _ _ _ Hlast Hr).
    exists (ps ++ [predict b]), (drop 1 b ++ [<[0%nat:=predict b]> r]), (<[0%nat:=predict b]> r).
    split_and!; [done| | | | |].
    + rewrite length_app. simpl. lia.
    + rewrite length_app, length_drop. simpl.
      destruct b; [done|]. simpl. simpl in Hb. lia.
    + by rewrite last_snoc.
    + destruct r; done.
    + intros j Hj. rewrite list_lookup_insert_ne by lia. by apply Hcols.
Qed.
End Roll.

(** Claim C3.  For a one-step predictor [predict], a window of [T] rows
    whose last row [r0] has the target column, and a horizon [h], the
    rollout returns [h] predictions and a window of [T] rows.  Pass [k]
    (for [k < h]) starts from the state after [k] passes, a window [b]
    of [T] rows with last row [r]: it predicts [predict b], which is
    prediction number [k] of the result, appends the row [r] with
    column 0 set to that prediction and drops the first row of [b].
    Every column of [r] other than column 0 is as in [r0]. *)
Theorem roll_autoregressive (predict : list (list Q) → Q)
    (last_sequence : list (list Q)) (T : nat) (r0 : list Q) (horizon : nat) :
  length last_sequence = T → last last_sequence = Some r0 → r0 ≠ [] →
  ∃ predicted final_batch,
    roll predict last_sequence horizon = Some (predicted, final_batch)
    ∧ length predicted = horizon
    ∧ length final_batch = T
    ∧ ∀ k, (k < horizon)%nat →
        ∃ ps b r,
          roll predict last_sequence k = Some (ps, b)
          ∧ length ps = k ∧ length b = T
          ∧ last b = Some r
          ∧ (∀ j, (0 < j)%nat → r !! j = r0 !! j)
          ∧ predicted !! k = Some (predict b)
          ∧ roll predict last_sequence (S k)
            = Some (ps ++ [predict b], drop 1 b ++ [<[0%nat := predict b]> r]).
Proof.
  intros <- Hl Hr0.
  destruct (roll_invariant predict _ _ horizon Hl Hr0) as (pd & fb & rh & Hh & Hpd & Hfb & _).
  exists pd, fb. split_and!; [done..|].
  intros k Hk.
  destruct (roll_invariant predict _ _ k Hl Hr0) as (ps & b & r & Hroll & Hps & Hb & Hlast & Hr & Hcols).
  exists ps, b, r.
  assert (roll predict last_sequence (S k)
          = Some (ps ++ [predict b], drop 1 b ++ [<[0%nat := predict b]> r])) as HS.
  { unfold roll in *. rewrite roll_loop_succ, Hroll. by apply roll_body_eq. }
  split_and!; [done..| |done].
  unfold roll in *.
  replace horizon with (S k + (horizon - S k))%nat in Hh by lia.
  rewrite roll_loop_add, HS in Hh. simpl in Hh.
  apply roll_loop_prefix in Hh. destruct Hh as [t ->].
  rewrite <- (assoc_L (++)). rewrite lookup_app_r by lia.
  rewrite Hps, Nat.sub_diag. done.
Qed.

Lemma roll_autoregressive_witness :
  ∃ predicted final_batch,
    roll (λ w, default 0 (last w ≫= head) + 1) sample_matrix 4
    = Some (predicted, final_batch)
    ∧ length predicted = 4%nat ∧ length final_batch = 3%nat.
Proof.
  destruct (roll_autoregressive (λ w, default 0 (last w ≫= head) + 1)
              sample_matrix 3 [3; 30] 4 eq_refl eq_refl)
    as (predicted & final_batch & Hroll & Hp & Hb & _); [discriminate|].
  exists predicted, final_batch. split; [exact Hroll|]. split; [exact Hp|exact Hb].
Defined.

Example roll_sample :
  roll (λ w, default 0 (last w ≫= head) + 1) sample_matrix 4
  = Some ([3 + 1; 3 + 1 + 1; 3 + 1 + 1 + 1; 3 + 1 + 1 + 1 + 1],
          [[3 + 1 + 1; 30]; [3 + 1 + 1 + 1; 30]; [3 + 1 + 1 + 1 + 1; 30]]).
Proof. reflexivity. Qed.

(** ** Continuity shift and price floor *)

(** Claim C1.  For a scaled path with at least one element, the shift
    step adds [last_actual_price - predicted_prices[0]] to every element
    of the inverse-scaled path, and the first element of the result is
    the last actual price.  In [forecast] the sentiment blend and the
    noise come after this step ([forecast_stages]). *)
Theorem continuity_shift_first (close_scaler : MinMaxScaler.t)
    (last_actual_price : Q) (scaled_path : list Q) :
  scaled_path ≠ [] →
  let predicted_prices := inverse_transform close_scaler scaled_path in
  ∃ p0 adjusted_prices a0,
    head predicted_prices = Some p0
    ∧ continuity_shift last_actual_price predicted_prices = Some adjusted_prices
    ∧ adjusted_prices = (λ p, p + (last_actual_price - p0)) <$> predicted_prices
    ∧ head adjusted_prices = Some a0
    ∧ a0 == last_actual_price.
Proof.
  intros Hne predicted_prices. subst predicted_prices.
  destruct scaled_path as [|s path]; [done|].
  unfold inverse_transform, continuity_shift. simpl.
  eexists _, _, _. split_and!; [reflexivity..|]. ring.
Qed.

Lemma continuity_shift_first_witness :
  ∃ adjusted_prices a0,
    continuity_shift 50 (inverse_transform (MinMaxScaler.Scaler (1 # 4) (1 # 8)) [1; 2; 3])
    = Some adjusted_prices
    ∧ head adjusted_prices = Some a0 ∧ a0 == 50.
Proof.
  destruct (continuity_shift_first (MinMaxScaler.Scaler (1 # 4) (1 # 8)) 50 [1; 2; 3])
    as (p0 & adjusted_prices & a0 & _ & Hshift & _ & Hhead & Ha0); [discriminate|].
  exists adjusted_prices, a0. split; [exact Hshift|]. split; [exact Hhead|exact Ha0].
Defined.

Lemma floor_prices_positive (prices : list Q) :
  Forall (λ p, 1 # 100 <= p ∧ 0 < p) (floor_prices prices).
Proof.
  unfold floor_prices. apply Forall_fmap, Forall_forall. intros p _. simpl.
  pose proof (Q.le_max_r p (1 # 100)). split; [done|]. lra.
Qed.

Section Stages.
Variable sqrt : Q → Q.
Variable train : list (list (list Q) * Q) → option (list (list Q) → Q).
Variable standard_normal : nat → Q.
Variable today : Z.
Variable PERFORM_SENTIMENT : bool.
Variable sentiment_data : gmap Z Q.
Variable linear_regression : list Z → list Q → option (Z → Q).

Lemma forecast_stages (training_data : DataFrame) (time_step : nat)
    (close_scaler : MinMaxScaler.t) (scaled_data : list (list Q))
    (train_set : list (list (list Q) * Q)) (dates : list Z) (prices : list Q) :
  forecast train standard_normal today PERFORM_SENTIMENT sentiment_data
    linear_regression training_data time_step close_scaler scaled_data train_set
  = Some (dates, prices) →
  ∃ model st last_actual_price adjusted_prices last_date noisy,
    train train_set = Some model
    ∧ roll model (drop (length scaled_data - time_step) scaled_data) prediction_days = Some st
    ∧ last_actual_close training_data = Some last_actual_price
    ∧ continuity_shift last_actual_price (inverse_transform close_scaler st.1)
      = Some adjusted_prices
    ∧ last (index training_data) = Some last_date
    ∧ dates = bdate_range (last_date + 1) prediction_days
    ∧ add_noise standard_normal
        (apply_sentiment today PERFORM_SENTIMENT sentiment_data linear_regression
           dates adjusted_prices) = Some noisy
    ∧ prices = floor_prices noisy.
Proof.
  unfold forecast. intros H.
  destruct (train train_set) as [model|]; simpl in H; [|done].
  destruct (time_step =? 0)%nat; [done|].
  destruct (roll model _ prediction_days) as [st|] eqn:Hroll; simpl in H; [|done].
  destruct (last_actual_close training_data) as [lap|]; simpl in H; [|done].
  destruct (continuity_shift lap _) as [adj|] eqn:Hadj; simpl in H; [|done].
  destruct (last (index training_data)) as [ld|]; simpl in H; [|done].
  destruct (add_noise _ _) as [noisy|] eqn:Hn; simpl in H; [|done].
  injection H as <- <-.
  exists model, st, lap, adj, ld, noisy. done.
Qed.

(** Claim C9.  Whatever the table, the window length, the trained
    model, the sentiment state and the noise draws, every price that
    [predict_future] returns is at least 0.01, hence above 0. *)
Theorem predict_future_prices_positive (training_data : DataFrame) (time_step : nat) :
  match predict_future sqrt train standard_normal today PERFORM_SENTIMENT
          sentiment_data linear_regression training_data time_step with
  | Returned (dates, prices) => Forall (λ p, 1 # 100 <= p ∧ 0 < p) prices
  | Raised => True
  end.
Proof.
  unfold predict_future, insufficient_data.
  destruct (length (compute_indicators _ _ _ _) =? 0)%nat; [by constructor|].
  destruct (MinMaxScaler.fit_transform _) as [[scaler scaled_data]|]; [|done].
  destruct (scaler !! 0%nat) as [close_scaler|]; [|done].
  destruct (make_windows _ _) as [train_set|]; [|done].
  destruct (length train_set =? 0)%nat; [by constructor|].
  destruct (forecast _ _ _ _ _ _ _ _ _ _ _) as [[dates prices]|] eqn:Hf; simpl; [|done].
  apply forecast_stages in Hf as (?&?&?&?&?&?&?&?&?&?&?&?&?&->).
  apply floor_prices_positive.
Qed.
End Stages.

(** With the sentiment blend off and noise draws of 0, the first price
    returned is the last actual close, raised to the floor if it is
    below it. *)
Lemma forecast_first_price (train : list (list (list Q) * Q) → option (list (list Q) → Q))
    (today : Z) (sentiment_data : gmap Z Q)
    (linear_regression : list Z → list Q → option (Z → Q))
    (training_data : DataFrame) (time_step : nat) (close_scaler : MinMaxScaler.t)
    (scaled_data : list (list Q)) (train_set : list (list (list Q) * Q))
    (dates : list Z) (prices : list Q) :
  forecast train (λ _, 0) today false sentiment_data linear_regression
    training_data time_step close_scaler scaled_data train_set
  = Some (dates, prices) →
  ∃ last_actual_price p0,
    last_actual_close training_data = Some last_actual_price
    ∧ head prices = Some p0
    ∧ p0 == Qmax last_actual_price (1 # 100).
Proof.
  intros H. apply forecast_stages in H
    as (model & st & lap & adj & ld & noisy & _ & _ & Hlap & Hadj & _ & _ & Hnoise & ->).
  unfold apply_sentiment in Hnoise. simpl in Hnoise.
  unfold continuity_shift in Hadj.
  destruct (inverse_transform close_scaler st.1) as [|p0 path]; [done|].
  simpl in Hadj. injection Hadj as <-.
  unfold add_noise in Hnoise.
  destruct (Qlt_le_dec _ 0); [done|]. injection Hnoise as <-.
  exists lap. eexists. split; [done|]. split; [reflexivity|].
  set (vf := np_mean _ * _).
  destruct (Q.max_spec (p0 + (lap - p0) + (0 + vf * 0)) (1 # 100)) as [[? ->]|[? ->]];
    destruct (Q.max_spec lap (1 # 100)) as [[? ->]|[? ->]]; lra.
Qed.

(** A run that reaches the end: 23 rising closes, windows of 2 rows, no
    sentiment, no noise.  Ten prices come back and the first is the last
    close. *)
Example predict_future_sample :
  ∃ dates prices,
    predict_future (λ x, x) sample_train (λ _, 0) 738030 false ∅ ols
      (sample_frame (rising_closes 23)) 2
    = Returned (dates, prices)
    ∧ length dates = 10%nat
    ∧ Qred <$> prices
      = [122; 1223 # 10; 613 # 5; 1229 # 10; 616 # 5; 247 # 2; 619 # 5;
         1241 # 10; 622 # 5; 1247 # 10].
Proof. eexists _, _. split; [vm_compute; reflexivity|]. vm_compute. done. Qed.

(** The same run with sentiment and with draws of 3 standard deviations
    below the mean: the prices stay above the floor. *)
Example predict_future_sample_noise :
  ∃ dates prices,
    predict_future (λ x, x) sample_train (λ _, -3) 738030 true sample_sentiment ols
      (sample_frame (rising_closes 23)) 2
    = Returned (dates, prices)
    ∧ length prices = 10%nat
    ∧ Forall (λ p, 0 < p) prices.
Proof.
  eexists _, _. split; [vm_compute; reflexivity|]. split; [reflexivity|].
  repeat constructor.
Qed.

(** ** Business days *)

Ltac weekday_cases :=
  unfold is_business_day, rollforward, next_bday, weekday in *;
  repeat match goal with
         | |- context [(?a =? ?b)%Z] => destruct (Z.eqb_spec a b)
         | |- context [(?a <? ?b)%Z] => destruct (Z.ltb_spec a b)
         | H : context [(?a =? ?b)%Z] |- _ => destruct (Z.eqb_spec a b)
         | H : context [(?a <? ?b)%Z] |- _ => destruct (Z.ltb_spec a b)
         end;
  try discriminate; try (Z.to_euclidean_division_equations; lia).

Lemma rollforward_business (d : Z) : is_business_day (rollforward d) = true.
Proof. weekday_cases. Qed.

Lemma rollforward_ge (d : Z) : (d ≤ rollforward d)%Z.
Proof. weekday_cases. Qed.

Lemma rollforward_least (d b : Z) :
  is_business_day b = true → (d ≤ b)%Z → (rollforward d ≤ b)%Z.
Proof. intros Hb Hd. weekday_cases. Qed.

Lemma next_bday_business (d : Z) :
  is_business_day d = true → is_business_day (next_bday d) = true.
Proof. intros Hd. weekday_cases. Qed.

Lemma next_bday_gt (d : Z) : (d < next_bday d)%Z.
Proof. weekday_cases. Qed.

Lemma next_bday_least (d b : Z) :
  is_business_day d = true → is_business_day b = true → (d < b)%Z → (next_bday d ≤ b)%Z.
Proof. intros Hd Hb Hlt. weekday_cases. Qed.

Lemma length_bdays_from (d : Z) (n : nat) : length (bdays_from d n) = n.
Proof. revert d. induction n as [|n IH]; intros d; simpl; [done|]. by rewrite IH. Qed.

Lemma bdays_from_business (d : Z) (n : nat) :
  is_business_day d = true → Forall (λ x, is_business_day x = true) (bdays_from d n).
Proof.
  revert d. induction n as [|n IH]; intros d Hd; simpl; constructor; [done|].
  by apply IH, next_bday_business.
Qed.

Lemma bdays_from_ge (d : Z) (n : nat) : Forall (λ x, (d ≤ x)%Z) (bdays_from d n).
Proof.
  revert d. induction n as [|n IH]; intros d; simpl; constructor; [lia|].
  eapply Forall_impl; [apply IH|]. simpl. intros x Hx. pose proof (next_bday_gt d). lia.
Qed.

Lemma bdays_from_increasing (d : Z) (n : nat) : StronglySorted Z.lt (bdays_from d n).
Proof.
  revert d. induction n as [|n IH]; intros d; simpl; constructor; [apply IH|].
  eapply Forall_impl; [apply bdays_from_ge|]. simpl. intros x Hx. pose proof (next_bday_gt d). lia.
Qed.

(** No business day is skipped. *)
Lemma bdays_from_complete (d b : Z) (n : nat) :
  is_business_day d = true → is_business_day b = true → (d ≤ b)%Z →
  b ∈ bdays_from d n ∨ Forall (λ x, (x < b)%Z) (bdays_from d n).
Proof.
  revert d. induction n as [|n IH]; intros d Hd Hb Hle; simpl.
  - right. constructor.
  - destruct (decide (b = d)) as [->|Hne]; [left; constructor|].
    destruct (IH (next_bday d)) as [Hin|Hall].
    + by apply next_bday_business.
    + done.
    + apply next_bday_least; [done..|lia].
    + left. by constructor.
    + right. constructor; [lia|done].
Qed.

(** [bdate_range start n] is the first [n] business days from [start]
    on. *)
Lemma bdate_range_spec (start : Z) (n : nat) :
  length (bdate_range start n) = n
  ∧ Forall (λ x, is_business_day x = true ∧ (start ≤ x)%Z) (bdate_range start n)
  ∧ StronglySorted Z.lt (bdate_range start n)
  ∧ ∀ b, is_business_day b = true → (start ≤ b)%Z →
      b ∈ bdate_range start n ∨ Forall (λ x, (x < b)%Z) (bdate_range start n).
Proof.
  unfold bdate_range. split_and!.
  - apply length_bdays_from.
  - apply Forall_and. split; [apply bdays_from_business, rollforward_business|].
    eapply Forall_impl; [apply bdays_from_ge|]. simpl. intros x Hx.
    pose proof (rollforward_ge start). lia.
  - apply bdays_from_increasing.
  - intros b Hb Hle. apply bdays_from_complete; [apply rollforward_business|done|].
    by apply rollforward_least.
Qed.

(** ** Failure paths of [predict_future] *)

Lemma row_at_length (i : nat) (cols : list (list (option Q))) (r : list Q) :
  row_at i cols = Some r → length r = length cols.
Proof. unfold row_at. intros H. symmetry. by eapply length_mapM. Qed.

Lemma dropna_row_length (n : nat) (cols : list (list (option Q))) :
  Forall (λ r, length r = length cols) (dropna n cols).
Proof.
  unfold dropna. apply Forall_forall. intros r Hr.
  apply list_elem_of_omap in Hr as (i & _ & Hi). by eapply row_at_length.
Qed.

Lemma omap_length_le {A B} (f : A → option B) (l : list A) :
  (length (omap f l) ≤ length l)%nat.
Proof.
  induction l as [|x l IH]; [done|].
  change (omap f (x :: l)) with (match f x with Some y => y :: omap f l | None => omap f l end).
  destruct (f x); simpl; lia.
Qed.

Lemma dropna_length (n : nat) (cols : list (list (option Q))) :
  (length (dropna n cols) ≤ n)%nat.
Proof.
  unfold dropna. etrans; [apply omap_length_le|]. by rewrite length_seq.
Qed.

Section IndicatorShape.
Variable sqrt : Q → Q.

Lemma compute_indicators_row_length (df : DataFrame) (vw ew : nat) :
  Forall (λ r, length r = 9%nat) (compute_indicators sqrt df vw ew).
Proof.
  unfold compute_indicators.
  repeat case_match; try by constructor.
  apply (dropna_row_length _ (indicator_columns _ _ _ _ _ _ _)).
Qed.

Lemma compute_indicators_length (df : DataFrame) (vw ew : nat) :
  (length (compute_indicators sqrt df vw ew) ≤ length (index df))%nat.
Proof.
  unfold compute_indicators.
  repeat case_match; simpl; try lia. apply dropna_length.
Qed.

Lemma compute_indicators_input_error (df : DataFrame) (vw ew : nat) :
  df_empty df = true
  ∨ missing_cols (drop_duplicated [] (lower_columns (columns df))) ≠ [] →
  compute_indicators sqrt df vw ew = [].
Proof.
  unfold compute_indicators. intros [->|Hm]; [done|].
  destruct (df_empty df); [done|].
  rewrite bool_decide_eq_false_2; done.
Qed.
End IndicatorShape.

Lemma fit1_is_Some (c : list Q) : c ≠ [] → is_Some (MinMaxScaler.fit1 c).
Proof. destruct c; [done|]. intros _. simpl. eauto. Qed.

Lemma fit_transform_Some (rows : list (list Q)) (r0 : list Q) :
  head rows = Some r0 →
  ∃ scaler scaled_data,
    MinMaxScaler.fit_transform rows = Some (scaler, scaled_data)
    ∧ length scaler = length r0
    ∧ scaled_data = MinMaxScaler.transform scaler rows.
Proof.
  intros Hh. destruct rows as [|r rows]; [done|]. injection Hh as ->.
  unfold MinMaxScaler.fit_transform, MinMaxScaler.fit.
  assert (is_Some (mapM (λ j, MinMaxScaler.fit1 (MinMaxScaler.column j (r0 :: rows)))
                     (seq 0 (length r0)))) as [scs Hscs].
  { apply mapM_is_Some, Forall_forall. intros j _. by apply fit1_is_Some. }
  rewrite Hscs. simpl. exists scs, (MinMaxScaler.transform scs (r0 :: rows)).
  split_and!; [done| |done].
  apply length_mapM in Hscs. by rewrite length_seq in Hscs.
Qed.

Lemma transform_length (scaler : list MinMaxScaler.t) (rows : list (list Q)) :
  length (MinMaxScaler.transform scaler rows) = length rows.
Proof. unfold MinMaxScaler.transform. by rewrite length_fmap. Qed.

Lemma transform_row_length (scaler : list MinMaxScaler.t) (rows : list (list Q)) (n : nat) :
  length scaler = n → Forall (λ r, length r = n) rows →
  Forall (λ r, length r = n) (MinMaxScaler.transform scaler rows).
Proof.
  intros Hs Hr. unfold MinMaxScaler.transform. apply Forall_fmap.
  eapply Forall_impl; [exact Hr|]. simpl. intros r Hlen.
  rewrite length_zip_with. lia.
Qed.

Lemma make_windows_short (time_step : nat) (scaled_data : list (list Q)) :
  (length scaled_data ≤ time_step)%nat → make_windows time_step scaled_data = Some [].
Proof.
  intros H. unfold make_windows.
  replace (length scaled_data - time_step)%nat with 0%nat by lia. done.
Qed.

Section FailurePaths.
Variable sqrt : Q → Q.
Variable train : list (list (list Q) * Q) → option (list (list Q) → Q).
Variable standard_normal : nat → Q.
Variable today : Z.
Variable PERFORM_SENTIMENT : bool.
Variable sentiment_data : gmap Z Q.
Variable linear_regression : list Z → list Q → option (Z → Q).

(** Too few feature rows for one window: the call returns the
    insufficient-data value. *)
Lemma predict_future_insufficient (training_data : DataFrame) (time_step : nat) :
  (length (compute_indicators sqrt training_data 20 20) ≤ time_step)%nat →
  predict_future sqrt train standard_normal today PERFORM_SENTIMENT
    sentiment_data linear_regression training_data time_step
  = insufficient_data today training_data.
Proof.
  intros Hshort. unfold predict_future.
  destruct (length (compute_indicators sqrt training_data 20 20) =? 0)%nat eqn:Hz; [done|].
  apply Nat.eqb_neq in Hz.
  pose proof (compute_indicators_row_length sqrt training_data 20 20) as Hrows.
  destruct (compute_indicators sqrt training_data 20 20) as [|r0 rows] eqn:Hf; [done|].
  destruct (fit_transform_Some (r0 :: rows) r0 eq_refl) as (scaler & scaled & -> & Hlen & ->).
  assert (length r0 = 9%nat) as Hr0 by (by inversion Hrows).
  rewrite make_windows_short by (by rewrite transform_length).
  destruct scaler as [|close_scaler scaler]; [simpl in Hlen; lia|].
  done.
Qed.

(** Claim C5.  If the table is empty, or misses one of the columns
    close, high, low and volume after the normalisation of its column
    names, or has at most [time_step] rows, or gives a feature matrix
    of at most [time_step] rows, then [predict_future] returns, and
    does not raise: the result is ten forecast dates with an empty price
    sequence. *)
Theorem input_errors_return_empty (training_data : DataFrame) (time_step : nat) :
  df_empty training_data = true
  ∨ missing_cols (drop_duplicated [] (lower_columns (columns training_data))) ≠ []
  ∨ (length (index training_data) ≤ time_step)%nat
  ∨ (length (compute_indicators sqrt training_data 20 20) ≤ time_step)%nat →
  ∃ future_dates,
    predict_future sqrt train standard_normal today PERFORM_SENTIMENT
      sentiment_data linear_regression training_data time_step
    = Returned (future_dates, [])
    ∧ length future_dates = prediction_days.
Proof.
  intros Hcase.
  assert (length (compute_indicators sqrt training_data 20 20) ≤ time_step)%nat as Hshort.
  { destruct Hcase as [He|[Hm|[Hrows|Hfeat]]].
    - rewrite compute_indicators_input_error by (by left). simpl. lia.
    - rewrite compute_indicators_input_error by (by right). simpl. lia.
    - etrans; [apply compute_indicators_length|done].
    - done. }
  rewrite (predict_future_insufficient _ _ Hshort).
  unfold insufficient_data. eexists. split; [done|].
  apply bdate_range_spec.
Qed.

(** Claim C10.  On both failure paths (an empty feature matrix, or at
    most [time_step] feature rows) [predict_future] returns ten dates
    and no price, so the two sequences differ in length.  The dates are
    the first ten business days after the last date of the table, in
    increasing order; after today's date instead when the table is
    empty. *)
Theorem failure_returns_dates_without_prices (training_data : DataFrame)
    (time_step : nat) :
  compute_indicators sqrt training_data 20 20 = []
  ∨ (length (compute_indicators sqrt training_data 20 20) ≤ time_step)%nat →
  ∃ future_dates prices,
    predict_future sqrt train standard_normal today PERFORM_SENTIMENT
      sentiment_data linear_regression training_data time_step
    = Returned (future_dates, prices)
    ∧ prices = []
    ∧ length future_dates = 10%nat
    ∧ length future_dates ≠ length prices
    ∧ future_dates
      = bdate_range (last_date_or_today today training_data + 1) 10
    ∧ Forall (λ d, is_business_day d = true
                   ∧ (last_date_or_today today training_data < d)%Z) future_dates
    ∧ StronglySorted Z.lt future_dates
    ∧ (∀ b, is_business_day b = true →
            (last_date_or_today today training_data < b)%Z →
            b ∈ future_dates ∨ Forall (λ d, (d < b)%Z) future_dates)
    ∧ last_date_or_today today training_data
      = (if df_empty training_data then today
         else default today (last (index training_data)))
    ∧ (df_empty training_data = false → is_Some (last (index training_data))).
Proof.
  intros Hcase.
  assert (length (compute_indicators sqrt training_data 20 20) ≤ time_step)%nat as Hshort.
  { destruct Hcase as [->|?]; [simpl; lia|done]. }
  rewrite (predict_future_insufficient _ _ Hshort).
  unfold insufficient_data.
  destruct (bdate_range_spec (last_date_or_today today training_data + 1) 10)
    as (Hlen & Hall & Hsorted & Hcomplete).
  eexists _, _. split; [reflexivity|]. change prediction_days with 10%nat.
  split_and!; try done.
  - eapply Forall_impl; [exact Hall|]. simpl. intros d [? ?]. split; [done|lia].
  - intros b Hb Hlt. apply Hcomplete; [done|lia].
  - unfold last_date_or_today. by destruct (df_empty training_data).
  - unfold df_empty. intros [Hi _]%orb_false_elim. apply Nat.eqb_neq in Hi.
    destruct (index training_data) as [|d l] using rev_ind; [done|].
    rewrite last_snoc. eauto.
Qed.
End FailurePaths.

Lemma input_errors_return_empty_witness :
  ∃ future_dates,
    predict_future (λ x, x) sample_train (λ _, 0) 738030 false ∅ ols
      (Frame [738000%Z] [("open"%string, [1])]) 60
    = Returned (future_dates, [])
    ∧ length future_dates = prediction_days.
Proof.
  apply (input_errors_return_empty (λ x, x) sample_train (λ _, 0) 738030 false ∅ ols
           (Frame [738000%Z] [("open"%string, [1])]) 60).
  right. left. vm_compute. discriminate.
Defined.

Lemma failure_returns_dates_without_prices_witness :
  ∃ future_dates prices,
    predict_future (λ x, x) sample_train (λ _, 0) 738030 false ∅ ols
      (sample_frame (rising_closes 5)) 60
    = Returned (future_dates, prices)
    ∧ prices = []
    ∧ length future_dates = 10%nat.
Proof.
  destruct (failure_returns_dates_without_prices (λ x, x) sample_train (λ _, 0)
              738030 false ∅ ols (sample_frame (rising_closes 5)) 60)
    as (future_dates & prices & Hret & Hprices & Hlen & _).
  - left. vm_compute. reflexivity.
  - exists future_dates, prices. split; [exact Hret|]. split; [exact Hprices|exact Hlen].
Defined.

(** The dates of a failing run: the last date of the sample table is a
    Monday, and the ten dates skip the two weekends. *)
Example failure_dates_sample :
  predict_future (λ x, x) sample_train (λ _, 0) 738030 false ∅ ols
    (sample_frame (rising_closes 5)) 60
  = Returned ([738005; 738006; 738007; 738008; 738011; 738012; 738013; 738014;
               738015; 738018]%Z, []).
Proof. vm_compute. reflexivity. Qed.

(** An empty table: the dates count from today. *)
Example failure_dates_empty_frame :
  predict_future (λ x, x) sample_train (λ _, 0) 738030 false ∅ ols (Frame [] []) 60
  = Returned (bdate_range 738031 10, []).
Proof. vm_compute. reflexivity. Qed.

(** ** The sentiment trend forecaster *)

Lemma flat_forecast_lookup_acc (v : Q) (dates : list Z) (m : gmap Z Q) (d : Z) :
  foldl (λ m d, <[d := v]> m) m dates !! d
  = if bool_decide (d ∈ dates) then Some v else m !! d.
Proof.
  revert m. induction dates as [|x dates IH]; intros m; simpl; [done|].
  rewrite IH. destruct (decide (d ∈ dates)) as [Hin|Hnin].
  - rewrite !bool_decide_eq_true_2; [done|by right|done].
  - rewrite (bool_decide_eq_false_2 (d ∈ dates)) by done.
    destruct (decide (d = x)) as [->|Hne].
    + rewrite lookup_insert_eq. rewrite bool_decide_eq_true_2; [done|by left].
    + rewrite lookup_insert_ne by done.
      rewrite bool_decide_eq_false_2; [done|]. by intros [?|?]%elem_of_cons.
Qed.

Lemma flat_forecast_lookup (v : Q) (dates : list Z) (d : Z) :
  flat_forecast v dates !! d = if bool_decide (d ∈ dates) then Some v else None.
Proof. unfold flat_forecast. by rewrite flat_forecast_lookup_acc, lookup_empty. Qed.

Lemma foldl_insert_lookup (l : list (Z * Q)) (m : gmap Z Q) (d : Z) (v : Q) :
  foldl (λ m dp, <[dp.1 := dp.2]> m) m l !! d = Some v →
  (d, v) ∈ l ∨ m !! d = Some v.
Proof.
  revert m. induction l as [|[x y] l IH]; intros m; simpl; [by right|].
  intros [Hin|Hm]%IH; [left; by right|].
  destruct (decide (x = d)) as [->|Hne].
  - rewrite lookup_insert_eq in Hm. injection Hm as ->. left. by left.
  - rewrite lookup_insert_ne in Hm by done. by right.
Qed.

Lemma sorted_items_elem (sd : gmap Z Q) (d : Z) (s : Q) :
  (d, s) ∈ sorted_items sd ↔ sd !! d = Some s.
Proof.
  unfold sorted_items. rewrite merge_sort_Permutation. apply elem_of_map_to_list.
Qed.

Lemma recent_items_elem (today : Z) (sd : gmap Z Q) (d : Z) (s : Q) :
  (d, s) ∈ recent_items today sd ↔ sd !! d = Some s ∧ (today - 30 ≤ d)%Z.
Proof.
  unfold recent_items, recent_cutoff. rewrite list_elem_of_filter, sorted_items_elem. simpl.
  tauto.
Qed.

Lemma recent_items_empty (today : Z) : recent_items today ∅ = [].
Proof. unfold recent_items, sorted_items. by rewrite map_to_list_empty. Qed.

Lemma fallback_sentiment_empty (today : Z) : fallback_sentiment today ∅ = 0.
Proof.
  unfold fallback_sentiment. rewrite recent_items_empty.
  rewrite (bool_decide_eq_false_2 ((∅ : gmap Z Q) ≠ ∅)) by (intros H; by apply H).
  done.
Qed.

Lemma Qsum_Permutation (l k : list Q) : l ≡ₚ k → Rolling.Qsum l == Rolling.Qsum k.
Proof.
  induction 1 as [|x l k _ IH|x y l|l k m _ IH1 _ IH2].
  - reflexivity.
  - change (x + Rolling.Qsum l == x + Rolling.Qsum k). by rewrite IH.
  - change (y + (x + Rolling.Qsum l) == x + (y + Rolling.Qsum l)). ring.
  - by rewrite IH1.
Qed.

Lemma np_mean_Permutation (l k : list Q) : l ≡ₚ k → np_mean l == np_mean k.
Proof.
  intros Hp. unfold np_mean, Rolling.mean_of.
  by rewrite (Qsum_Permutation l k Hp), (Permutation_length Hp).
Qed.

Lemma recent_items_NoDup (today : Z) (sd : gmap Z Q) : NoDup (recent_items today sd).
Proof.
  unfold recent_items, sorted_items. apply NoDup_filter.
  rewrite merge_sort_Permutation. apply NoDup_map_to_list.
Qed.

(** The recent observations are determined, up to their order, by the
    map and the cutoff. *)
Lemma recent_items_unique (today : Z) (sd : gmap Z Q) (recent : list (Z * Q)) :
  NoDup recent →
  (∀ d s, (d, s) ∈ recent ↔ sd !! d = Some s ∧ (today - 30 ≤ d)%Z) →
  recent ≡ₚ recent_items today sd.
Proof.
  intros Hnd Hin. apply NoDup_Permutation; [done|apply recent_items_NoDup|].
  intros [d s]. by rewrite Hin, recent_items_elem.
Qed.

(** Claim C6.  [recent] lists, without repetition, the observations of
    the map dated on or after the cutoff of 30 days before today.  With
    fewer than 5 of them the forecast is one value [v] for every forecast
    date: the mean of those recent observations if there is one, else
    the mean of all observations if the map is not empty, else 0.  The
    result does not depend on the regression, which may fail. *)
Theorem sentiment_fallback_flat (today : Z) (sentiment_data : gmap Z Q)
    (linear_regression : list Z → list Q → option (Z → Q)) (future_dates : list Z)
    (recent : list (Z * Q)) :
  NoDup recent →
  (∀ d s, (d, s) ∈ recent ↔ sentiment_data !! d = Some s ∧ (today - 30 ≤ d)%Z) →
  (length recent < 5)%nat →
  ∃ v,
    forecast_future_sentiment today sentiment_data linear_regression future_dates
    = flat_forecast v future_dates
    ∧ (∀ d, d ∈ future_dates →
         forecast_future_sentiment today sentiment_data linear_regression future_dates !! d
         = Some v)
    ∧ (recent ≠ [] → v == np_mean recent.*2)
    ∧ (recent = [] → sentiment_data ≠ ∅ →
         v = np_mean (map_to_list sentiment_data).*2)
    ∧ (sentiment_data = ∅ → v = 0).
Proof.
  intros Hnd Hin Hfew.
  pose proof (recent_items_unique today sentiment_data recent Hnd Hin) as Hperm.
  rewrite (Permutation_length Hperm) in Hfew.
  exists (fallback_sentiment today sentiment_data).
  assert (forecast_future_sentiment today sentiment_data linear_regression future_dates
          = flat_forecast (fallback_sentiment today sentiment_data) future_dates) as Heq.
  { unfold forecast_future_sentiment. case_bool_decide as Hemp.
    - subst. by rewrite fallback_sentiment_empty.
    - rewrite length_fmap. apply Nat.ltb_lt in Hfew. by rewrite Hfew. }
  split; [done|]. split_and!.
  - intros d Hd. rewrite Heq, flat_forecast_lookup. by rewrite bool_decide_eq_true_2.
  - intros Hne. unfold fallback_sentiment. rewrite bool_decide_eq_true_2.
    + apply np_mean_Permutation. symmetry. by apply fmap_Permutation.
    + intros Hnil. apply fmap_nil_inv in Hnil. rewrite Hnil in Hperm.
      by apply Permutation_nil_r in Hperm.
  - intros -> Hne. symmetry in Hperm. apply Permutation_nil_r in Hperm.
    unfold fallback_sentiment. rewrite Hperm.
    by rewrite (bool_decide_eq_true_2 (sentiment_data ≠ ∅)).
  - intros ->. apply fallback_sentiment_empty.
Qed.

Lemma sentiment_fallback_flat_witness :
  ∃ v,
    forecast_future_sentiment 738010 sample_sentiment_mixed (λ _ _, None)
      [738011; 738012]%Z
    = flat_forecast v [738011; 738012]%Z
    ∧ v == 1 # 4
    ∧ ¬ np_mean (map_to_list sample_sentiment_mixed).*2 == 1 # 4.
Proof.
  destruct (sentiment_fallback_flat 738010 sample_sentiment_mixed (λ _ _, None)
              [738011; 738012]%Z [(738008%Z, 1 # 2); (738009%Z, 0)])
    as (v & Heq & _ & Hrecent & _).
  - repeat constructor; intros Hin; repeat (apply elem_of_cons in Hin as [Hin|Hin]);
      by try apply elem_of_nil in Hin.
  - intros d s. rewrite !elem_of_cons, elem_of_nil. unfold sample_sentiment_mixed. split.
    + intros [[= -> ->]|[[= -> ->]|[]]]; (split; [reflexivity|lia]).
    + intros [Hl Hd].
      apply lookup_insert_Some in Hl as [[<- <-]|[_ Hl]]; [lia|].
      apply lookup_insert_Some in Hl as [[<- <-]|[_ Hl]]; [by left|].
      apply lookup_singleton_Some in Hl as [<- <-]. right. by left.
  - simpl. lia.
  - exists v. split; [exact Heq|]. split.
    + rewrite (Hrecent ltac:(done)). reflexivity.
    + vm_compute. discriminate.
Defined.

(** No observation is recent: the forecast is the mean of all of them. *)
Example sentiment_fallback_old_only :
  forecast_future_sentiment 738100 sample_sentiment_mixed (λ _ _, None) [738101%Z]
    !! 738101%Z
  = Some (np_mean (map_to_list sample_sentiment_mixed).*2)
  ∧ np_mean (map_to_list sample_sentiment_mixed).*2 == 1 # 2.
Proof. split; [vm_compute; reflexivity|reflexivity]. Qed.

(** An empty map and ten business days: every date has the score 0. *)
Example sentiment_empty_map (today : Z) (lr : list Z → list Q → option (Z → Q)) (d : Z) :
  d ∈ bdate_range (today + 1) 10 →
  forecast_future_sentiment today ∅ lr (bdate_range (today + 1) 10) !! d = Some 0.
Proof.
  intros Hd. unfold forecast_future_sentiment.
  rewrite bool_decide_eq_true_2 by done.
  rewrite flat_forecast_lookup. by rewrite bool_decide_eq_true_2.
Qed.

Lemma inject_length_succ {A} (x : A) (l : list A) :
  inject_Z (Z.of_nat (length (x :: l))) == inject_Z (Z.of_nat (length l)) + 1.
Proof. simpl length. rewrite Nat2Z.inj_succ, <- Z.add_1_r, inject_Z_plus. reflexivity. Qed.

Lemma Qsum_bounds (lo hi : Q) (l : list Q) :
  Forall (λ s, lo <= s <= hi) l →
  lo * inject_Z (Z.of_nat (length l)) <= Rolling.Qsum l
  ∧ Rolling.Qsum l <= hi * inject_Z (Z.of_nat (length l)).
Proof.
  induction 1 as [|x l [Hlo Hhi] _ [IHlo IHhi]].
  - cbn. change (inject_Z (Z.of_nat 0)) with 0. lra.
  - rewrite inject_length_succ.
    change (Rolling.Qsum (x :: l)) with (x + Rolling.Qsum l).
    set (n := inject_Z (Z.of_nat (length l))) in *. nra.
Qed.

Lemma np_mean_bounds (lo hi : Q) (l : list Q) :
  l ≠ [] → Forall (λ s, lo <= s <= hi) l → lo <= np_mean l <= hi.
Proof.
  intros Hne Hall. destruct (Qsum_bounds lo hi l Hall) as [Hlo Hhi].
  unfold np_mean, Rolling.mean_of.
  assert (0 < inject_Z (Z.of_nat (length l))) as Hpos.
  { destruct l; [done|]. rewrite <- (Zlt_Qlt 0). simpl length. lia. }
  split.
  - apply Qle_shift_div_l; [done|lra].
  - apply Qle_shift_div_r; [done|lra].
Qed.

Lemma np_clip_bounds (lo hi x : Q) : lo <= hi → lo <= np_clip lo hi x <= hi.
Proof.
  intros Hle. unfold np_clip.
  destruct (Q.max_spec x lo) as [[? Hm]|[? Hm]];
    destruct (Q.min_spec (Qmax x lo) hi) as [[? Hn]|[? Hn]];
    rewrite Hn; try rewrite Hm; rewrite ?Hm in *; lra.
Qed.

(** Claim C7 as stated fails: a map with the single observation 5, dated
    today, gives the forecast 5. *)
Lemma sentiment_forecast_unbounded :
  ¬ (∀ (today : Z) (sentiment_data : gmap Z Q)
       (linear_regression : list Z → list Q → option (Z → Q))
       (future_dates : list Z) (d : Z) (v : Q),
       forecast_future_sentiment today sentiment_data linear_regression future_dates !! d
       = Some v → -1 <= v <= 1).
Proof.
  intros H.
  specialize (H 738010%Z {[ 738010%Z := 5 ]} ols [738011%Z] 738011%Z 5 eq_refl).
  destruct H as [_ H]. by apply Qle_bool_iff in H.
Qed.

(** Claim C7, amended.  If every score of the map lies in [-1, 1], or if
    there are at least 5 recent observations and the regression on them
    succeeds (whatever the magnitude of the scores), then every score of
    the forecast lies in [-1, 1]. *)
Theorem sentiment_forecast_bounded (today : Z) (sentiment_data : gmap Z Q)
    (linear_regression : list Z → list Q → option (Z → Q))
    (future_dates : list Z) (d : Z) (v : Q) :
  map_Forall (λ _ s, -1 <= s <= 1) sentiment_data
  ∨ ((5 ≤ length (recent_items today sentiment_data))%nat
      ∧ is_Some (linear_regression (recent_items today sentiment_data).*1
                   (recent_items today sentiment_data).*2)) →
  forecast_future_sentiment today sentiment_data linear_regression future_dates !! d
  = Some v →
  -1 <= v <= 1.
Proof.
  intros Hcase. unfold forecast_future_sentiment.
  case_bool_decide as Hemp.
  { rewrite flat_forecast_lookup. case_bool_decide; [|done]. intros [= <-]. lra. }
  rewrite length_fmap.
  destruct (length (recent_items today sentiment_data) <? 5)%nat eqn:Hlen.
  - apply Nat.ltb_lt in Hlen. destruct Hcase as [Hb|[Hfive _]]; [|lia].
    rewrite flat_forecast_lookup. case_bool_decide; [|done]. intros [= <-].
    unfold fallback_sentiment. case_bool_decide as Hrec.
    + apply np_mean_bounds; [done|]. apply Forall_fmap, Forall_forall.
      intros [x s] [Hin _]%recent_items_elem. simpl. by apply (Hb x s).
    + rewrite bool_decide_eq_true_2 by done.
      apply np_mean_bounds.
      * intros Hnil%fmap_nil_inv. by apply map_to_list_empty_iff in Hnil.
      * apply Forall_fmap, Forall_forall. intros [x s] Hin%elem_of_map_to_list.
        simpl. by apply (Hb x s).
  - destruct (linear_regression _ _) as [model|] eqn:Hfit.
    + intros [Hin|Hm]%foldl_insert_lookup; [|by rewrite lookup_empty in Hm].
      apply elem_of_zip_r in Hin. apply list_elem_of_fmap in Hin as (y & -> & _).
      apply np_clip_bounds. lra.
    + destruct Hcase as [Hb|[_ [? ?]]]; [|done].
      rewrite flat_forecast_lookup. case_bool_decide; [|done]. intros [= <-].
      apply Nat.ltb_ge in Hlen.
      apply np_mean_bounds.
      * intros Hnil%fmap_nil_inv. rewrite Hnil in Hlen. simpl in Hlen. lia.
      * apply Forall_fmap, Forall_forall.
        intros [x s] [Hin _]%recent_items_elem. simpl. by apply (Hb x s).
Qed.

Lemma sentiment_forecast_bounded_witness :
  forecast_future_sentiment 738010 sample_sentiment ols [738011%Z] !! 738011%Z
  = Some (np_mean [1 # 2])
  ∧ -1 <= np_mean [1 # 2] <= 1.
Proof.
  split; [vm_compute; reflexivity|].
  apply (sentiment_forecast_bounded 738010 sample_sentiment ols [738011%Z] 738011%Z).
  - left. intros i x Hix. unfold sample_sentiment in Hix.
    apply lookup_singleton_Some in Hix as [_ <-].
    split; discriminate.
  - vm_compute. reflexivity.
Defined.

(** ** Bounds of the indicators *)

Section EwmBounds.
Variables (old_wt_factor new_wt : Q) (adjust : bool) (minp : nat) (lo hi : Q).
Hypothesis factor_nonneg : 0 <= old_wt_factor.
Hypothesis new_wt_pos : 0 < new_wt.

Lemma ewm_step_within (st : Series.ewm_state) (cur : option Q) :
  ewm_within lo hi st → within_opt lo hi cur →
  ewm_within lo hi (Series.ewm_step old_wt_factor new_wt adjust st cur).
Proof.
  intros [Hw Ho] Hc. unfold Series.ewm_step.
  destruct (Series.weighted st) as [w|] eqn:Hwt.
  - specialize (Hw w eq_refl).
    assert (0 <= Series.old_wt st * old_wt_factor) as How by nra.
    destruct cur as [c|].
    + specialize (Hc c eq_refl). split; simpl.
      * intros q [= <-]. destruct (Qeq_bool w c); [done|].
        set (ow := Series.old_wt st * old_wt_factor) in *.
        split.
        -- apply Qle_shift_div_l; nra.
        -- apply Qle_shift_div_r; nra.
      * destruct adjust; lra.
    + split; simpl; [by intros q [= <-]|done].
  - split; simpl; done.
Qed.

Lemma ewm_loop_within (st : Series.ewm_state) (vals : list (option Q)) :
  ewm_within lo hi st → Forall (within_opt lo hi) vals →
  Forall (within_opt lo hi) (Series.ewm_loop old_wt_factor new_wt adjust minp st vals).
Proof.
  intros Hst Hv. revert st Hst.
  induction Hv as [|cur vals Hc Hv IH]; intros st Hst; simpl; constructor.
  - pose proof (ewm_step_within st cur Hst Hc) as [Hw _].
    unfold Series.ewm_out. destruct (minp <=? _)%nat; [done|]. by intros q.
  - by apply IH, ewm_step_within.
Qed.
End EwmBounds.

(** An exponentially weighted mean stays within the bounds of its
    input. *)
Lemma ewm_mean_within (com : Q) (adjust : bool) (min_periods : nat)
    (vals : list (option Q)) (lo hi : Q) :
  0 <= com → Forall (within_opt lo hi) vals →
  Forall (within_opt lo hi) (Series.ewm_mean com adjust min_periods vals).
Proof.
  intros Hcom Hv. unfold Series.ewm_mean.
  destruct Hv as [|v0 vals Hv0 Hv]; [constructor|].
  assert (0 < 1 / (1 + com) ∧ 1 / (1 + com) <= 1) as [Ha1 Ha2].
  { split; [apply Qlt_shift_div_l; lra|apply Qle_shift_div_r; lra]. }
  constructor.
  - unfold Series.ewm_out. simpl. destruct (_ <=? _)%nat; [done|]. by intros q.
  - apply ewm_loop_within; [lra|destruct adjust; lra| |done].
    split; simpl; [done|lra].
Qed.

Lemma row_at_cell (i j : nat) (cols : list (list (option Q))) (r : list Q)
    (col : list (option Q)) :
  row_at i cols = Some r → cols !! j = Some col →
  ∃ a, col !! i = Some (Some a) ∧ r !! j = Some a.
Proof.
  unfold row_at. intros Hr%mapM_Some Hc.
  destruct (Forall2_lookup_l _ _ _ _ _ Hr Hc) as (a & Ha & Hjoin).
  exists a. split; [|done]. destruct (col !! i) as [[x|]|]; simplify_eq/=; done.
Qed.

Lemma span_com_nonneg (w : nat) :
  (1 ≤ w)%nat → 0 <= Series.com_of_span (inject_Z (Z.of_nat w)).
Proof.
  intros Hw. unfold Series.com_of_span.
  assert (1 <= inject_Z (Z.of_nat w)) by (rewrite <- (Zle_Qle 1); lia).
  apply Qle_shift_div_l; lra.
Qed.

Lemma of_finite_within (lo hi : Q) (c : list Q) :
  Forall (λ x, lo <= x <= hi) c → Forall (within_opt lo hi) (of_finite c).
Proof.
  intros H. unfold of_finite. apply Forall_fmap. eapply Forall_impl; [exact H|].
  simpl. intros x Hx q [= <-]. done.
Qed.

(** In every row of the feature matrix the close is one of the
    closes of the table, the EMA20 lies within the bounds of the closes,
    and the MACD within the width of those bounds. *)
Theorem indicators_ema_within (sqrt : Q → Q) (df : DataFrame)
    (vol_window ema_window : nat) (closes : list Q) (lo hi : Q) :
  get_col "close" (drop_duplicated [] (lower_columns (columns df))) = Some closes →
  Forall (λ c, lo <= c <= hi) closes →
  Forall (λ r, ∃ c e m,
            r !! 0%nat = Some c ∧ c ∈ closes
            ∧ r !! 1%nat = Some e ∧ lo <= e <= hi
            ∧ r !! 2%nat = Some m ∧ lo - hi <= m <= hi - lo)
    (compute_indicators sqrt df vol_window ema_window).
Proof.
  intros Hc Hb. unfold compute_indicators. rewrite Hc.
  destruct (df_empty df); [constructor|].
  case_bool_decide; [|constructor].
  destruct (get_col "high" _) as [high|]; [|constructor].
  destruct (get_col "low" _) as [low|]; [|constructor].
  destruct (get_col "volume" _) as [volume|]; [|constructor].
  destruct (ema_window =? 0)%nat eqn:He; [constructor|]. apply Nat.eqb_neq in He.
  destruct (vol_window =? 0)%nat eqn:Hv; [constructor|]. simpl.
  apply Forall_forall. intros r Hr. unfold dropna in Hr.
  apply list_elem_of_omap in Hr as (i & _ & Hr).
  pose proof (of_finite_within _ _ _ Hb) as Hfin.
  destruct (row_at_cell i 0 _ r (of_finite closes) Hr eq_refl) as (c & Hci & Hr0).
  destruct (row_at_cell i 1 _ r _ Hr eq_refl) as (e & Hei & Hr1).
  destruct (row_at_cell i 2 _ r _ Hr eq_refl) as (m & Hmi & Hr2).
  assert (c ∈ closes) as Hcin.
  { unfold of_finite in Hci. rewrite list_lookup_fmap in Hci.
    destruct (closes !! i) as [x|] eqn:Hx; simplify_eq/=.
    by eapply list_elem_of_lookup_2. }
  assert (lo <= e <= hi) as Hebound.
  { pose proof (ewm_mean_within _ false 0 _ lo hi
                  (span_com_nonneg ema_window ltac:(lia)) Hfin) as Hema.
    eapply Forall_lookup_1 in Hema; [|exact Hei]. by apply Hema. }
  assert (lo - hi <= m <= hi - lo) as Hmbound.
  { pose proof (ewm_mean_within _ false 0 _ lo hi (span_com_nonneg 12 ltac:(lia)) Hfin) as H12.
    pose proof (ewm_mean_within _ false 0 _ lo hi (span_com_nonneg 26 ltac:(lia)) Hfin) as H26.
    unfold Series.sub in Hmi. apply lookup_zip_with_Some in Hmi as (a & b & Hab & Ha & Hb').
    destruct a as [a|], b as [b|]; try discriminate. injection Hab as ->.
    eapply Forall_lookup_1 in H12; [|exact Ha]. eapply Forall_lookup_1 in H26; [|exact Hb'].
    specialize (H12 a eq_refl). specialize (H26 b eq_refl). lra. }
  exists c, e, m. tauto.
Qed.

(** ** The scaler *)

Lemma foldl_Qmin_le (x : Q) (r : list Q) :
  foldl Qmin x r <= x ∧ Forall (λ y, foldl Qmin x r <= y) r.
Proof.
  revert x. induction r as [|y r IH]; intros x; simpl.
  - split; [lra|constructor].
  - destruct (IH (Qmin x y)) as [H1 H2].
    pose proof (Q.le_min_l x y). pose proof (Q.le_min_r x y).
    split; [lra|]. constructor; [lra|done].
Qed.

Lemma foldl_Qmax_ge (x : Q) (r : list Q) :
  x <= foldl Qmax x r ∧ Forall (λ y, y <= foldl Qmax x r) r.
Proof.
  revert x. induction r as [|y r IH]; intros x; simpl.
  - split; [lra|constructor].
  - destruct (IH (Qmax x y)) as [H1 H2].
    pose proof (Q.le_max_l x y). pose proof (Q.le_max_r x y).
    split; [lra|]. constructor; [lra|done].
Qed.

Lemma handle_zeros_bounds (range : Q) :
  0 <= range →
  0 < MinMaxScaler.handle_zeros_in_scale range
  ∧ range <= MinMaxScaler.handle_zeros_in_scale range.
Proof.
  intros Hr. unfold MinMaxScaler.handle_zeros_in_scale.
  assert (0 < 10 * MinMaxScaler.eps) by reflexivity.
  assert (10 * MinMaxScaler.eps < 1) by reflexivity.
  destruct (Qlt_le_dec range (10 * MinMaxScaler.eps)); lra.
Qed.

Lemma fit1_transform_unit (c : list Q) (sc : MinMaxScaler.t) (x : Q) :
  MinMaxScaler.fit1 c = Some sc → x ∈ c →
  0 <= MinMaxScaler.transform1 sc x <= 1.
Proof.
  destruct c as [|x0 r]; [done|]. simpl. intros [= <-] Hx.
  destruct (foldl_Qmin_le x0 r) as [Hmin0 Hmin]. destruct (foldl_Qmax_ge x0 r) as [Hmax0 Hmax].
  set (mn := foldl Qmin x0 r) in *. set (mx := foldl Qmax x0 r) in *.
  assert (mn <= x <= mx) as [Hlo Hhi].
  { apply elem_of_cons in Hx as [->|Hx]; [lra|].
    rewrite Forall_forall in Hmin, Hmax. split; [by apply Hmin|by apply Hmax]. }
  destruct (handle_zeros_bounds (mx - mn)) as [Hpos Hge]; [lra|].
  set (hz := MinMaxScaler.handle_zeros_in_scale (mx - mn)) in *.
  unfold MinMaxScaler.transform1. simpl.
  assert (x * (1 / hz) + (0 - mn * (1 / hz)) == (x - mn) / hz) as -> by (field; lra).
  split.
  - apply Qle_shift_div_l; lra.
  - apply Qle_shift_div_r; lra.
Qed.

(** The scaler fitted on a matrix undoes its own scaling, column by
    column; in particular the target column's scaler, which
    [predict_future] uses to turn predictions back into prices. *)
Theorem scaler_round_trip (rows : list (list Q)) (scaler : list MinMaxScaler.t)
    (j : nat) (sc : MinMaxScaler.t) (x : Q) :
  MinMaxScaler.fit rows = Some scaler → scaler !! j = Some sc →
  MinMaxScaler.inverse_transform1 sc (MinMaxScaler.transform1 sc x) == x
  ∧ MinMaxScaler.transform1 sc (MinMaxScaler.inverse_transform1 sc x) == x.
Proof.
  intros Hfit Hj. unfold MinMaxScaler.fit in Hfit.
  destruct rows as [|r0 rows]; [done|].
  apply mapM_Some in Hfit.
  destruct (Forall2_lookup_r _ _ _ _ _ Hfit Hj) as (k & _ & Hk).
  apply fit1_scale_pos in Hk.
  unfold MinMaxScaler.inverse_transform1, MinMaxScaler.transform1.
  split; field; lra.
Qed.

(** Every entry of the matrix that [fit_transform] returns lies in
    [0, 1], when each row is as long as the first. *)
Theorem fit_transform_unit (rows scaled : list (list Q)) (scaler : list MinMaxScaler.t)
    (n : nat) :
  Forall (λ r, length r = n) rows →
  MinMaxScaler.fit_transform rows = Some (scaler, scaled) →
  length scaled = length rows
  ∧ Forall (λ r, length r = n ∧ Forall (λ x, 0 <= x <= 1) r) scaled.
Proof.
  intros Hrect Hft. unfold MinMaxScaler.fit_transform in Hft.
  destruct (MinMaxScaler.fit rows) as [scs|] eqn:Hfit; simpl in Hft; [|done].
  injection Hft as <- <-.
  unfold MinMaxScaler.transform. rewrite length_fmap. split; [done|].
  unfold MinMaxScaler.fit in Hfit. destruct rows as [|r0 rest]; [done|].
  assert (length r0 = n) as Hr0 by (by inversion Hrect).
  set (rows := r0 :: rest) in *.
  apply mapM_Some in Hfit.
  pose proof (Forall2_length _ _ _ Hfit) as Hlen. rewrite length_seq in Hlen.
  apply Forall_fmap, Forall_forall. intros r Hr. simpl.
  assert (length r = n) as Hrn by (rewrite Forall_forall in Hrect; by apply Hrect).
  split; [rewrite length_zip_with; lia|].
  apply Forall_forall. intros y Hy.
  apply elem_of_lookup_zip_with in Hy as (j & sc & x & -> & Hsc & Hx).
  destruct (Forall2_lookup_r _ _ _ _ _ Hfit Hsc) as (k & Hk & Hfit1).
  apply lookup_seq in Hk as [-> _]. change (0 + j)%nat with j in Hfit1.
  eapply fit1_transform_unit; [exact Hfit1|].
  unfold MinMaxScaler.column. apply list_elem_of_fmap. exists r. split; [|done].
  by rewrite Hx.
Qed.

Lemma obv_column_unit (closes volumes : list Q) :
  Forall (λ x, 0 <= x <= 1) (obv_column closes volumes).
Proof.
  unfold obv_column, MinMaxScaler.fit_transform1.
  destruct (MinMaxScaler.fit1 (obv closes volumes)) as [sc|] eqn:Hfit; simpl; [|constructor].
  apply Forall_fmap, Forall_forall. intros x Hx. simpl.
  by eapply fit1_transform_unit.
Qed.

(** The feature matrix has nine columns, and its OBV column lies in
    [0, 1]. *)
Theorem indicators_obv_unit (sqrt : Q → Q) (df : DataFrame) (vol_window ema_window : nat) :
  Forall (λ r, length r = 9%nat ∧ ∃ o, r !! obv_index = Some o ∧ 0 <= o <= 1)
    (compute_indicators sqrt df vol_window ema_window).
Proof.
  unfold compute_indicators.
  destruct (df_empty df); [constructor|].
  case_bool_decide; [|constructor].
  destruct (get_col "close" _) as [close|]; [|constructor].
  destruct (get_col "high" _) as [high|]; [|constructor].
  destruct (get_col "low" _) as [low|]; [|constructor].
  destruct (get_col "volume" _) as [volume|]; [|constructor].
  destruct (_ || _); [constructor|].
  apply Forall_forall. intros r Hr. unfold dropna in Hr.
  apply list_elem_of_omap in Hr as (i & _ & Hr).
  split; [by apply row_at_length in Hr|].
  destruct (row_at_cell i obv_index _ r _ Hr eq_refl) as (o & Hoi & Hro).
  exists o. split; [done|].
  unfold of_finite in Hoi. rewrite list_lookup_fmap in Hoi.
  destruct (obv_column _ _ !! i) as [x|] eqn:Hx; simplify_eq/=.
  pose proof (obv_column_unit close volume) as Hu.
  eapply Forall_lookup_1 in Hu; eauto.
Qed.

(** ** Warm-up rows *)

(** A row with a missing cell, or past the end of a column, is dropped. *)
Lemma row_at_missing (i j : nat) (cols : list (list (option Q))) (col : list (option Q)) :
  cols !! j = Some col → mjoin (col !! i) = None → row_at i cols = None.
Proof.
  intros Hc Hm. destruct (row_at i cols) as [r|] eqn:Hr; [|done].
  destruct (row_at_cell i j cols r col Hr Hc) as (a & Ha & _).
  rewrite Ha in Hm. done.
Qed.

Lemma omap_seq_skip {B} (f : nat → option B) (k n : nat) :
  (∀ i, (i < k)%nat → f i = None) →
  (length (omap f (seq 0 n)) ≤ n - k)%nat.
Proof.
  intros Hf. destruct (decide (n ≤ k)%nat) as [Hle|Hgt].
  - assert (omap f (seq 0 n) = []) as ->; [|simpl; lia].
    apply list_eq. intros j. rewrite lookup_nil.
    destruct (omap f (seq 0 n) !! j) as [y|] eqn:Hy; [|done].
    apply list_elem_of_lookup_2, list_elem_of_omap in Hy as (i & Hi%elem_of_seq & Hfi).
    rewrite Hf in Hfi by lia. done.
  - replace n with (k + (n - k))%nat at 1 by lia.
    rewrite seq_app, omap_app, length_app.
    assert (omap f (seq 0 k) = []) as ->.
    { apply list_eq. intros j. rewrite lookup_nil.
      destruct (omap f (seq 0 k) !! j) as [y|] eqn:Hy; [|done].
      apply list_elem_of_lookup_2, list_elem_of_omap in Hy as (i & Hi%elem_of_seq & Hfi).
      rewrite Hf in Hfi by lia. done. }
    simpl. etrans; [apply omap_length_le|]. by rewrite length_seq.
Qed.

Lemma rolling_apply_lookup (f : list Q → option Q) (w : nat) (s : list (option Q)) (i : nat) :
  Rolling.apply f w s !! i
  = if decide (i < length s)%nat then Some (Rolling.window_at w i s ≫= f) else None.
Proof.
  unfold Rolling.apply. rewrite list_lookup_fmap.
  case_decide as Hi.
  - rewrite (lookup_seq_lt _ _ _ Hi). done.
  - rewrite lookup_seq_ge by lia. done.
Qed.

Lemma rolling_warmup (f : list Q → option Q) (w : nat) (s : list (option Q)) (i : nat) :
  (S i < w)%nat → mjoin (Rolling.apply f w s !! i) = None.
Proof.
  intros Hi. rewrite rolling_apply_lookup. case_decide; [|done]. simpl.
  unfold Rolling.window_at.
  destruct (Nat.leb_spec w (S i)); [lia|]. by rewrite andb_false_r.
Qed.

Lemma diff_from_lookup_0 (prev : option Q) (s : list (option Q)) :
  Series.diff_from prev s !! 0%nat = (λ x, Series.lift2 Qminus x prev) <$> s !! 0%nat.
Proof. by destruct s. Qed.

Lemma diff_from_lookup_S (prev : option Q) (s : list (option Q)) (i : nat) :
  Series.diff_from prev s !! S i
  = x ← s !! S i; y ← s !! i; Some (Series.lift2 Qminus x y).
Proof.
  revert prev i. induction s as [|a s IH]; intros prev i; [done|].
  simpl. destruct i as [|i].
  - rewrite diff_from_lookup_0. simpl. by destruct (s !! 0%nat).
  - rewrite IH. done.
Qed.

Lemma diff_warmup (s : list (option Q)) (i k : nat) :
  (∀ j, (j < k)%nat → mjoin (s !! j) = None) → (i ≤ k)%nat →
  mjoin (Series.diff s !! i) = None.
Proof.
  intros Hs Hi. unfold Series.diff. destruct i as [|i].
  - rewrite diff_from_lookup_0. destruct (s !! 0%nat) as [[x|]|]; done.
  - rewrite diff_from_lookup_S.
    destruct (s !! S i) as [x|]; simpl; [|done].
    specialize (Hs i ltac:(lia)).
    destruct (s !! i) as [[y|]|]; simpl in *; [done| |done].
    by destruct x.
Qed.

Section Warmup.
Variable sqrt : Q → Q.

Lemma indicator_columns_warmup (vw ew : nat) (close high low volume : list Q) (i : nat) :
  (i < 9)%nat ∨ (S i < vw)%nat →
  row_at i (indicator_columns sqrt vw ew close high low volume) = None.
Proof.
  intros [Hi|Hi].
  - eapply (row_at_missing i 4); [reflexivity|].
    apply (diff_warmup _ i 8); [|lia].
    intros j Hj. apply rolling_warmup. lia.
  - eapply (row_at_missing i 7); [reflexivity|].
    by apply rolling_warmup.
Qed.

Lemma compute_indicators_length_bound (df : DataFrame) (vol_window ema_window : nat) :
  (length (compute_indicators sqrt df vol_window ema_window)
   ≤ length (index df) - 9)%nat
  ∧ (length (compute_indicators sqrt df vol_window ema_window)
     ≤ length (index df) - (vol_window - 1))%nat.
Proof.
  unfold compute_indicators.
  destruct (df_empty df); [simpl; lia|].
  case_bool_decide; [|simpl; lia].
  destruct (get_col "close" _) as [close|]; [|simpl; lia].
  destruct (get_col "high" _) as [high|]; [|simpl; lia].
  destruct (get_col "low" _) as [low|]; [|simpl; lia].
  destruct (get_col "volume" _) as [volume|]; [|simpl; lia].
  destruct (_ || _); [simpl; lia|].
  unfold dropna. split; apply omap_seq_skip; intros i Hi;
    apply indicator_columns_warmup; [by left|right; lia].
Qed.
End Warmup.

(** The warm-up rows are dropped: of a table of [n] rows at most [n - 9]
    give a feature row, and at most [n - (vol_window - 1)]. *)
Theorem compute_indicators_warmup (sqrt : Q → Q) (df : DataFrame)
    (vol_window ema_window : nat) :
  (length (compute_indicators sqrt df vol_window ema_window)
   ≤ length (index df) - 9)%nat
  ∧ (length (compute_indicators sqrt df vol_window ema_window)
     ≤ length (index df) - (vol_window - 1))%nat.
Proof. apply compute_indicators_length_bound. Qed.

(** ** The shape of a forecast *)

Lemma roll_loop_length (predict : list (list Q) → Q) (n : nat)
    (ps ps' : list Q) (b b' : list (list Q)) :
  roll_loop predict n (ps, b) = Some (ps', b') → length ps' = (length ps + n)%nat.
Proof.
  revert ps b. induction n as [|n IH]; intros ps b.
  - simpl. intros [= -> ->]. lia.
  - rewrite roll_loop_S.
    destruct (roll_body predict (ps, b)) as [[ps1 b1]|] eqn:Hb; simpl; [|done].
    intros H%IH. unfold roll_body in Hb.
    destruct (last b) as [r|]; simpl in Hb; [|done].
    destruct (set_target _ r); simpl in Hb; [|done].
    injection Hb as <- <-. rewrite length_app in H. simpl in H. lia.
Qed.

Lemma sentiment_blend_length (fs : gmap Z Q) (dates : list Z) (prices : list Q) :
  length dates = length prices → length (sentiment_blend fs dates prices) = length prices.
Proof. intros H. unfold sentiment_blend. rewrite length_zip_with. lia. Qed.

Lemma add_noise_length (sn : nat → Q) (prices noisy : list Q) :
  add_noise sn prices = Some noisy → length noisy = length prices.
Proof.
  unfold add_noise. destruct (Qlt_le_dec _ 0); [done|]. intros [= <-].
  rewrite length_zip_with, length_seq. lia.
Qed.

Section Shape.
Variable sqrt : Q → Q.
Variable train : list (list (list Q) * Q) → option (list (list Q) → Q).
Variable standard_normal : nat → Q.
Variable today : Z.
Variable PERFORM_SENTIMENT : bool.
Variable sentiment_data : gmap Z Q.
Variable linear_regression : list Z → list Q → option (Z → Q).

Lemma apply_sentiment_length (dates : list Z) (prices : list Q) :
  length dates = length prices →
  length (apply_sentiment today PERFORM_SENTIMENT sentiment_data linear_regression
            dates prices) = length prices.
Proof.
  intros H. unfold apply_sentiment.
  destruct (_ && _); [|done]. case_bool_decide; [|done].
  by apply sentiment_blend_length.
Qed.

Lemma forecast_lengths (training_data : DataFrame) (time_step : nat)
    (close_scaler : MinMaxScaler.t) (scaled_data : list (list Q))
    (train_set : list (list (list Q) * Q)) (dates : list Z) (prices : list Q) :
  forecast train standard_normal today PERFORM_SENTIMENT sentiment_data
    linear_regression training_data time_step close_scaler scaled_data train_set
  = Some (dates, prices) →
  length prices = prediction_days
  ∧ ∃ last_date, last (index training_data) = Some last_date
      ∧ dates = bdate_range (last_date + 1) prediction_days.
Proof.
  intros H. apply forecast_stages in H
    as (model & [ps b] & lap & adj & ld & noisy & _ & Hroll & _ & Hadj & Hld & -> & Hnoise & ->).
  split; [|eauto].
  apply roll_loop_length in Hroll. simpl in Hroll, Hadj.
  unfold continuity_shift in Hadj.
  destruct (head _) as [p0|]; simpl in Hadj; [|done]. injection Hadj as <-.
  apply add_noise_length in Hnoise.
  unfold floor_prices. rewrite length_fmap, Hnoise.
  rewrite apply_sentiment_length.
  - unfold inverse_transform. by rewrite !length_fmap.
  - destruct (bdate_range_spec (ld + 1) prediction_days) as [-> _].
    unfold inverse_transform. by rewrite !length_fmap.
Qed.

(** Whatever [predict_future] returns, the dates are ten business days in
    increasing order, and the prices are either none or ten, one per
    date. *)
Theorem predict_future_result_shape (training_data : DataFrame) (time_step : nat)
    (dates : list Z) (prices : list Q) :
  predict_future sqrt train standard_normal today PERFORM_SENTIMENT
    sentiment_data linear_regression training_data time_step
  = Returned (dates, prices) →
  length dates = 10%nat
  ∧ Forall (λ d, is_business_day d = true) dates
  ∧ StronglySorted Z.lt dates
  ∧ (prices = [] ∨ length prices = length dates).
Proof.
  assert (∀ start, length (bdate_range start prediction_days) = 10%nat
            ∧ Forall (λ d, is_business_day d = true) (bdate_range start prediction_days)
            ∧ StronglySorted Z.lt (bdate_range start prediction_days)) as Hdates.
  { intros start. destruct (bdate_range_spec start prediction_days) as (Hl & Hb & Hs & _).
    split_and!; [done| |done]. eapply Forall_impl; [exact Hb|]. by intros d [? _]. }
  unfold predict_future, insufficient_data.
  destruct (length (compute_indicators _ _ _ _) =? 0)%nat.
  { intros [= <- <-]. destruct (Hdates (last_date_or_today today training_data + 1)%Z) as (?&?&?).
    split_and!; [done..|by left]. }
  destruct (MinMaxScaler.fit_transform _) as [[scaler scaled_data]|]; [|done].
  destruct (scaler !! 0%nat) as [close_scaler|]; [|done].
  destruct (make_windows _ _) as [train_set|]; [|done].
  destruct (length train_set =? 0)%nat.
  { intros [= <- <-]. destruct (Hdates (last_date_or_today today training_data + 1)%Z) as (?&?&?).
    split_and!; [done..|by left]. }
  destruct (forecast _ _ _ _ _ _ _ _ _ _ _) as [[d p]|] eqn:Hf; simpl; [|done].
  intros [= <- <-].
  apply forecast_lengths in Hf as (Hp & ld & _ & ->).
  destruct (Hdates (ld + 1)%Z) as (Hl&?&?).
  split_and!; [done..|right]. by rewrite Hp, Hl.
Qed.

(** When the last close cannot be read from the table (no column is
    named exactly [close], or several are), [predict_future] gives no
    forecast: it returns the insufficient-data value or raises. *)
Theorem predict_future_needs_close (training_data : DataFrame) (time_step : nat) :
  last_actual_close training_data = None →
  predict_future sqrt train standard_normal today PERFORM_SENTIMENT
    sentiment_data linear_regression training_data time_step
  = insufficient_data today training_data
  ∨ predict_future sqrt train standard_normal today PERFORM_SENTIMENT
      sentiment_data linear_regression training_data time_step
    = Raised.
Proof.
  intros Hnone. unfold predict_future.
  destruct (length (compute_indicators _ _ _ _) =? 0)%nat; [by left|].
  destruct (MinMaxScaler.fit_transform _) as [[scaler scaled_data]|]; [|by right].
  destruct (scaler !! 0%nat) as [close_scaler|]; [|by right].
  destruct (make_windows _ _) as [train_set|]; [|by right].
  destruct (length train_set =? 0)%nat; [by left|].
  destruct (forecast _ _ _ _ _ _ _ _ _ _ _) as [[d p]|] eqn:Hf; simpl; [|by right].
  apply forecast_stages in Hf as (?&?&lap&?&?&?&?&?&Hlap&?). congruence.
Qed.

(** A table of at most [time_step + 19] rows is too short: the result is
    the insufficient-data value. *)
Theorem predict_future_needs_rows (training_data : DataFrame) (time_step : nat) :
  (length (index training_data) ≤ time_step + 19)%nat →
  predict_future sqrt train standard_normal today PERFORM_SENTIMENT
    sentiment_data linear_regression training_data time_step
  = insufficient_data today training_data.
Proof.
  intros Hrows. apply predict_future_insufficient.
  destruct (compute_indicators_length_bound sqrt training_data 20 20) as [_ H].
  simpl in H. lia.
Qed.
End Shape.

(** With the sentiment blend off and noise draws of 0, a forecast starts
    at the last close of the table, raised to the floor 0.01 if it is
    below it. *)
Theorem predict_future_first_price (sqrt : Q → Q)
    (train : list (list (list Q) * Q) → option (list (list Q) → Q))
    (today : Z) (sentiment_data : gmap Z Q)
    (linear_regression : list Z → list Q → option (Z → Q))
    (training_data : DataFrame) (time_step : nat) (dates : list Z) (prices : list Q) :
  predict_future sqrt train (λ _, 0) today false sentiment_data linear_regression
    training_data time_step
  = Returned (dates, prices) →
  prices ≠ [] →
  ∃ last_actual_price p0,
    last_actual_close training_data = Some last_actual_price
    ∧ head prices = Some p0
    ∧ p0 == Qmax last_actual_price (1 # 100).
Proof.
  unfold predict_future, insufficient_data.
  destruct (length (compute_indicators _ _ _ _) =? 0)%nat; [by intros [= <- <-]|].
  destruct (MinMaxScaler.fit_transform _) as [[scaler scaled_data]|]; [|done].
  destruct (scaler !! 0%nat) as [close_scaler|]; [|done].
  destruct (make_windows _ _) as [train_set|]; [|done].
  destruct (length train_set =? 0)%nat; [by intros [= <- <-]|].
  destruct (forecast _ _ _ _ _ _ _ _ _ _ _) as [[d p]|] eqn:Hf; simpl; [|done].
  intros [= <- <-] _. by eapply forecast_first_price.
Qed.

(** ** The sentiment blend and the flat market *)

(** The blend moves each price by at most half a percent of it when the
    forecast scores lie in [-1, 1], and leaves the price of a date
    without a score as it is. *)
Theorem sentiment_blend_bounded (future_sentiment : gmap Z Q)
    (future_dates : list Z) (prices : list Q) (i : nat) (d : Z) (p : Q) :
  map_Forall (λ _ s, -1 <= s <= 1) future_sentiment →
  future_dates !! i = Some d → prices !! i = Some p →
  ∃ p', sentiment_blend future_sentiment future_dates prices !! i = Some p'
    ∧ Qabs (p' - p) <= (5 # 1000) * Qabs p
    ∧ (future_sentiment !! d = None → p' == p).
Proof.
  intros Hb Hd Hp. unfold sentiment_blend.
  rewrite lookup_zip_with, Hd, Hp.
  set (s := default 0 (future_sentiment !! d)).
  exists (p * (1 + sentiment_weight * s)). split; [done|].
  assert (-1 <= s <= 1 ∧ (future_sentiment !! d = None → s == 0)) as [Hs Hs0].
  { subst s. destruct (future_sentiment !! d) as [x|] eqn:Hx.
    - split; [exact (Hb d x Hx)|done].
    - split; [simpl; lra|reflexivity]. }
  clearbody s. unfold sentiment_weight. split.
  - assert (p * (1 + (5 # 1000) * s) - p == (5 # 1000) * (p * s)) as Heq by ring.
    rewrite Heq, Qabs_Qmult, Qabs_Qmult.
    assert (Qabs s <= 1) as Hs1 by (apply Qabs_Qle_condition; lra).
    pose proof (Qabs_nonneg p) as Hp0.
    change (Qabs (5 # 1000)) with (5 # 1000). nra.
  - intros Hnone. rewrite (Hs0 Hnone). ring.
Qed.

Lemma flat_forecast_dom (v : Q) (dates : list Z) :
  dom (flat_forecast v dates) = list_to_set dates.
Proof.
  apply set_eq. intros d. rewrite elem_of_dom, flat_forecast_lookup, elem_of_list_to_set.
  case_bool_decide as Hin; split.
  - done.
  - eauto.
  - intros [? ?]. done.
  - done.
Qed.

Lemma foldl_insert_dom (l : list (Z * Q)) (m : gmap Z Q) :
  dom (foldl (λ m dp, <[dp.1 := dp.2]> m) m l) = list_to_set l.*1 ∪ dom m.
Proof.
  revert m. induction l as [|[d v] l IH]; intros m; simpl.
  - change (list_to_set ([] : list (Z * Q)).*1) with (∅ : gset Z).
    by rewrite (left_id_L ∅ (∪)).
  - rewrite IH, dom_insert_L. apply set_eq. intros x.
    rewrite !elem_of_union, !elem_of_list_to_set, elem_of_singleton. tauto.
Qed.

(** The forecast gives a score to every forecast date and to no other
    date. *)
Theorem forecast_future_sentiment_dom (today : Z) (sentiment_data : gmap Z Q)
    (linear_regression : list Z → list Q → option (Z → Q)) (future_dates : list Z) :
  dom (forecast_future_sentiment today sentiment_data linear_regression future_dates)
  = list_to_set future_dates.
Proof.
  unfold forecast_future_sentiment.
  case_bool_decide; [apply flat_forecast_dom|].
  destruct (_ <? 5)%nat; [apply flat_forecast_dom|].
  destruct (linear_regression _ _) as [model|]; [|apply flat_forecast_dom].
  rewrite foldl_insert_dom, dom_empty_L.
  rewrite fst_zip by (rewrite !length_fmap; lia). by rewrite (right_id_L ∅ (∪)).
Qed.

Lemma obv_from_flat (int64 : bool) (c pc po : Q) (cs vs : list Q) :
  Forall (λ x, x == c) cs → pc == c → length vs = length cs →
  obv_from int64 pc po cs vs = replicate (length cs) po.
Proof.
  intros Hc. revert pc vs. induction Hc as [|x cs Hx Hc IH]; intros pc vs Hpc Hl.
  - by destruct vs.
  - destruct vs as [|v vs]; [done|]. simpl.
    assert (obv_next int64 pc po x v = po) as ->.
    { unfold obv_next. destruct (Qlt_le_dec pc x); [lra|].
      destruct (Qlt_le_dec x pc); [lra|done]. }
    f_equal. apply IH; [done|]. simpl in Hl. lia.
Qed.

Lemma foldl_Qmin_zero (n : nat) : foldl Qmin 0 (replicate n 0) = 0.
Proof. induction n as [|n IH]; [done|]. simpl. exact IH. Qed.

Lemma foldl_Qmax_zero (n : nat) : foldl Qmax 0 (replicate n 0) = 0.
Proof. induction n as [|n IH]; [done|]. simpl. exact IH. Qed.

(** Closes that never move: the running OBV is 0 on every row, and so is
    the scaled OBV column (the zero range is scaled by 1, not divided
    by). *)
Theorem obv_flat_closes (closes volumes : list Q) (c : Q) :
  Forall (λ x, x == c) closes → length volumes = length closes →
  obv closes volumes = replicate (length closes) 0
  ∧ length (obv_column closes volumes) = length closes
  ∧ Forall (λ x, x == 0) (obv_column closes volumes).
Proof.
  intros Hc Hl.
  assert (obv closes volumes = replicate (length closes) 0) as Hobv.
  { unfold obv. destruct closes as [|c0 cs]; [done|]. destruct volumes as [|v0 vs]; [done|].
    apply Forall_cons in Hc as [Hc0 Hc]. simpl. f_equal.
    apply (obv_from_flat _ c); [done|done|]. simpl in Hl. lia. }
  split; [done|]. unfold obv_column. rewrite Hobv.
  destruct closes as [|c0 cs]; [split; [done|constructor]|].
  simpl replicate. unfold MinMaxScaler.fit_transform1, MinMaxScaler.fit1.
  rewrite foldl_Qmin_zero, foldl_Qmax_zero. simpl.
  rewrite length_fmap, length_replicate. split; [done|].
  constructor; [reflexivity|]. apply Forall_fmap, Forall_forall.
  intros x Hx%elem_of_replicate. destruct Hx as [-> _]. reflexivity.
Qed.

(** ** Column names *)

Lemma get_col_drop_duplicated (name : string) (seen : list string)
    (cols : list (string * list Q)) :
  get_col name (drop_duplicated seen cols)
  = if bool_decide (name ∈ seen) then None else get_col name cols.
Proof.
  revert seen. induction cols as [|[n c] cols IH]; intros seen; simpl.
  - by case_bool_decide.
  - destruct (bool_decide (n ∈ seen)) eqn:Hn.
    + apply bool_decide_eq_true in Hn. rewrite IH.
      case_bool_decide as Hs; [done|].
      rewrite bool_decide_eq_false_2; [done|]. intros ->. done.
    + apply bool_decide_eq_false in Hn. simpl. rewrite IH.
      destruct (decide (n = name)) as [->|Hne].
      * rewrite bool_decide_eq_true_2 by done. by rewrite bool_decide_eq_false_2.
      * rewrite (bool_decide_eq_false_2 (n = name)) by done.
        destruct (decide (name ∈ seen)) as [Hin|Hnin].
        -- rewrite !bool_decide_eq_true_2; [done|done|by right].
        -- rewrite !bool_decide_eq_false_2; [done|done|].
           intros [?|?]%elem_of_cons; congruence.
Qed.

Lemma get_col_lookup (name : string) (cols : list (string * list Q)) (c : list Q) :
  get_col name cols = Some c ↔
  ∃ i, cols !! i = Some (name, c) ∧ ∀ j nc, (j < i)%nat → cols !! j = Some nc → nc.1 ≠ name.
Proof.
  induction cols as [|[n c'] cols IH]; simpl.
  - split; [done|]. by intros (i & Hi & _).
  - case_bool_decide as Hn; simpl in Hn.
    + subst n. split.
      * intros [= ->]. exists 0%nat. split; [done|]. intros j nc Hj. lia.
      * intros (i & Hi & Hfirst). destruct i as [|i]; [by injection Hi as ->|].
        exfalso. by apply (Hfirst 0%nat (name, c')); [lia|done|].
    + rewrite IH. split.
      * intros (i & Hi & Hfirst). exists (S i). split; [done|].
        intros [|j] nc Hj Hnc; [by injection Hnc as <-|].
        apply (Hfirst j nc); [lia|done].
      * intros (i & Hi & Hfirst). destruct i as [|i]; [by injection Hi as -> ->|].
        exists i. split; [done|]. intros j nc Hj Hnc. apply (Hfirst (S j) nc); [lia|done].
Qed.

(** When a name repeats after lower-casing, the engine reads the first
    column of that name: the column it finds for [name] after the
    de-duplication is the one at the smallest position whose lower-cased
    name is [name]. *)
Theorem first_duplicate_column_wins (cols : list (string * list Q))
    (name : string) (c : list Q) :
  get_col name (drop_duplicated [] (lower_columns cols)) = Some c ↔
  ∃ i n, cols !! i = Some (n, c) ∧ lower n = name
    ∧ ∀ j nc, (j < i)%nat → cols !! j = Some nc → lower nc.1 ≠ name.
Proof.
  rewrite get_col_drop_duplicated.
  rewrite bool_decide_eq_false_2 by (by intros ?%elem_of_nil).
  rewrite get_col_lookup. unfold lower_columns. split.
  - intros (i & Hi & Hfirst). rewrite list_lookup_fmap in Hi.
    destruct (cols !! i) as [[n c0]|] eqn:Hci; simpl in Hi; [|done].
    injection Hi as <- <-. exists i, n. split_and!; [done..|].
    intros j nc Hj Hnc. apply (Hfirst j (lower nc.1, nc.2) Hj).
    by rewrite list_lookup_fmap, Hnc.
  - intros (i & n & Hi & Hn & Hfirst). exists i. split.
    + rewrite list_lookup_fmap, Hi. simpl. by rewrite Hn.
    + intros j nc Hj Hnc. rewrite list_lookup_fmap in Hnc.
      destruct (cols !! j) as [nc0|] eqn:Hcj; simpl in Hnc; [|done].
      injection Hnc as <-. simpl. by apply (Hfirst j nc0).
Qed.

(** ** The stock symbol *)

(** Facts about single characters, by inspection of all of them. *)
Ltac all_chars c := destruct c as [[] [] [] [] [] [] [] []]; vm_compute; try done.

Lemma isspace_upper_char (c : Ascii.ascii) : isspace (upper_char c) = isspace c.
Proof. all_chars c. Qed.

Lemma upper_char_not_lower (c : Ascii.ascii) : is_lower_letter (upper_char c) = false.
Proof. all_chars c. Qed.

Lemma upper_char_fixed (c : Ascii.ascii) : is_lower_letter c = false → upper_char c = c.
Proof. unfold upper_char. by intros ->. Qed.

Lemma upper_char_letter (c : Ascii.ascii) :
  is_lower_letter c = true ∨ is_upper_letter c = true →
  is_upper_letter (upper_char c) = true.
Proof. all_chars c; intros [?|?]; done. Qed.

Lemma isdigit_class (c : Ascii.ascii) :
  isdigit c = true →
  isspace c = false ∧ is_lower_letter c = false ∧ is_upper_letter c = false ∧ c ≠ dot.
Proof. all_chars c. Qed.

Lemma is_upper_class (c : Ascii.ascii) :
  is_upper_letter c = true →
  isspace c = false ∧ is_lower_letter c = false ∧ isdigit c = false
  ∧ c ≠ dot ∧ c ≠ newline.
Proof. all_chars c. Qed.

Lemma isspace_class (c : Ascii.ascii) :
  isspace c = true →
  is_lower_letter c = false ∧ is_upper_letter c = false ∧ isdigit c = false ∧ c ≠ dot.
Proof. all_chars c. Qed.

Lemma dot_class :
  isspace dot = false ∧ is_lower_letter dot = false.
Proof. done. Qed.

Lemma lstrip_head (s : (list Ascii.ascii)) (c : Ascii.ascii) :
  head (lstrip s) = Some c → isspace c = false.
Proof.
  induction s as [|x s IH]; simpl; [done|].
  destruct (isspace x) eqn:Hx; [done|]. simpl. by intros [= <-].
Qed.

Lemma lstrip_fixed (s : (list Ascii.ascii)) :
  (∀ c, head s = Some c → isspace c = false) → lstrip s = s.
Proof. destruct s as [|x s]; simpl; [done|]. intros H. by rewrite (H x eq_refl). Qed.

Lemma lstrip_spaces (a s : (list Ascii.ascii)) :
  Forall (λ c, isspace c = true) a → lstrip (a ++ s) = lstrip s.
Proof. induction 1 as [|x a Hx _ IH]; simpl; [done|]. by rewrite Hx. Qed.

Lemma lstrip_app_nonspace (r t : (list Ascii.ascii)) (c : Ascii.ascii) :
  isspace c = false → lstrip (r ++ c :: t) = lstrip r ++ c :: t.
Proof.
  intros Hc. induction r as [|x r IH]; simpl; [by rewrite Hc|].
  destruct (isspace x); [done|done].
Qed.

Lemma rstrip_last (s : (list Ascii.ascii)) (c : Ascii.ascii) :
  last (rstrip s) = Some c → isspace c = false.
Proof. unfold rstrip. rewrite last_reverse. apply lstrip_head. Qed.

Lemma rstrip_fixed (s : (list Ascii.ascii)) :
  (∀ c, last s = Some c → isspace c = false) → rstrip s = s.
Proof.
  intros H. unfold rstrip. rewrite lstrip_fixed; [apply reverse_involutive|].
  intros c. rewrite head_reverse. apply H.
Qed.

Lemma rstrip_spaces (s b : (list Ascii.ascii)) :
  Forall (λ c, isspace c = true) b → rstrip (s ++ b) = rstrip s.
Proof.
  intros Hb. unfold rstrip. rewrite reverse_app, lstrip_spaces; [done|].
  by apply Forall_reverse.
Qed.

Lemma rstrip_head (s : (list Ascii.ascii)) (c : Ascii.ascii) :
  head s = Some c → isspace c = false → head (rstrip s) = Some c.
Proof.
  destruct s as [|x t]; [done|]. intros [= ->] Hc. unfold rstrip.
  rewrite reverse_cons, lstrip_app_nonspace by done.
  by rewrite reverse_app.
Qed.

Lemma str_strip_trimmed (s : (list Ascii.ascii)) : trimmed (str_strip s).
Proof.
  unfold str_strip. split; [|apply rstrip_last].
  intros c Hc. destruct (lstrip s) as [|x t] eqn:Hl; [done|].
  assert (isspace x = false) as Hx by (apply (lstrip_head s); by rewrite Hl).
  rewrite (rstrip_head (x :: t) x eq_refl Hx) in Hc. by injection Hc as <-.
Qed.

Lemma str_strip_fixed (s : (list Ascii.ascii)) : trimmed s → str_strip s = s.
Proof. intros [Hh Hl]. unfold str_strip. rewrite lstrip_fixed by done. by apply rstrip_fixed. Qed.

Lemma str_upper_trimmed (s : (list Ascii.ascii)) : trimmed s → trimmed (str_upper s).
Proof.
  intros [Hh Hl]. unfold str_upper. split; intros c.
  - destruct s as [|x t]; [done|]. simpl. intros [= <-].
    rewrite isspace_upper_char. by apply Hh.
  - rewrite fmap_last. destruct (last s) as [x|]; [|done]. simpl. intros [= <-].
    rewrite isspace_upper_char. by apply Hl.
Qed.

Lemma str_upper_no_lower (s : (list Ascii.ascii)) :
  Forall (λ c, is_lower_letter c = false) (str_upper s).
Proof. apply Forall_fmap, Forall_forall. intros c _. apply upper_char_not_lower. Qed.

Lemma str_upper_fixed (s : (list Ascii.ascii)) :
  Forall (λ c, is_lower_letter c = false) s → str_upper s = s.
Proof.
  induction 1 as [|x s Hx _ IH]; [done|]. unfold str_upper in *.
  rewrite fmap_cons. f_equal; [by apply upper_char_fixed|exact IH].
Qed.

Lemma nonempty_true {A} (l : list A) : nonempty l = true ↔ l ≠ [].
Proof. destruct l; simpl; split; done. Qed.

Lemma span_spec (p : Ascii.ascii → bool) (s a b : (list Ascii.ascii)) :
  span p s = (a, b) →
  s = a ++ b ∧ Forall (λ c, p c = true) a ∧ (∀ c, head b = Some c → p c = false).
Proof.
  revert a b. induction s as [|x s IH]; intros a b; simpl.
  - intros [= <- <-]. split_and!; [done|constructor|done].
  - destruct (p x) eqn:Hx.
    + destruct (span p s) as [a' b'] eqn:Hs. intros [= <- <-].
      destruct (IH a' b' eq_refl) as (-> & Ha & Hb). split_and!; [done|by constructor|done].
    + intros [= <- <-]. split_and!; [done|constructor|]. simpl. by intros c [= <-].
Qed.

Lemma span_app (p : Ascii.ascii → bool) (a b : (list Ascii.ascii)) :
  Forall (λ c, p c = true) a → (∀ c, head b = Some c → p c = false) →
  span p (a ++ b) = (a, b).
Proof.
  intros Ha Hb. induction Ha as [|x a Hx _ IH]; simpl.
  - destruct b as [|y b]; [done|]. simpl. by rewrite (Hb y eq_refl).
  - by rewrite Hx, IH.
Qed.

Lemma forallb_Forall (p : Ascii.ascii → bool) (l : (list Ascii.ascii)) :
  forallb p l = true ↔ Forall (λ c, p c = true) l.
Proof.
  induction l as [|x l IH]; simpl.
  - split; [constructor|done].
  - rewrite andb_true_iff, IH, Forall_cons. done.
Qed.

Lemma before_final_newline_fixed (s : (list Ascii.ascii)) :
  (∀ c, last s = Some c → c ≠ newline) → before_final_newline s = s.
Proof.
  intros H. unfold before_final_newline.
  destruct (reverse s) as [|c r] eqn:Hr; [done|].
  case_bool_decide as Hc; [|done]. exfalso. apply (H c); [|done].
  by rewrite <- head_reverse, Hr.
Qed.

(** What the two patterns match. *)
Lemma match_no_space_Some (s d l : (list Ascii.ascii)) :
  match_no_space s = Some (d, l) →
  d ≠ [] ∧ l ≠ [] ∧ Forall (λ c, isdigit c = true) d
  ∧ Forall (λ c, is_upper_letter c = true) l.
Proof.
  unfold match_no_space.
  destruct (span isdigit _) as [a b] eqn:Hs.
  destruct (nonempty a && nonempty b && forallb is_upper_letter b) eqn:Hc; [|done].
  intros [= <- <-].
  apply andb_true_iff in Hc as [[Ha Hb]%andb_true_iff Hu].
  apply span_spec in Hs as (_ & Hd & _).
  split_and!; [by apply nonempty_true|by apply nonempty_true|done|by apply forallb_Forall].
Qed.

Lemma match_space_Some (s d l : (list Ascii.ascii)) :
  match_space s = Some (d, l) →
  d ≠ [] ∧ l ≠ [] ∧ Forall (λ c, isdigit c = true) d
  ∧ Forall (λ c, is_upper_letter c = true) l.
Proof.
  unfold match_space.
  destruct (span isdigit _) as [a r] eqn:Hs.
  destruct (span isspace r) as [w b] eqn:Hw.
  destruct (nonempty a && nonempty w && nonempty b && forallb is_upper_letter b) eqn:Hc; [|done].
  intros [= <- <-].
  apply andb_true_iff in Hc as [[[Ha _]%andb_true_iff Hb]%andb_true_iff Hu].
  apply span_spec in Hs as (_ & Hd & _).
  split_and!; [by apply nonempty_true|by apply nonempty_true|done|by apply forallb_Forall].
Qed.

Lemma dotted_clean (d l : (list Ascii.ascii)) :
  d ≠ [] → l ≠ [] → Forall (λ c, isdigit c = true) d →
  Forall (λ c, is_upper_letter c = true) l →
  clean_symbol (d ++ dot :: l) ∧ dot ∈ d ++ dot :: l.
Proof.
  intros Hd Hl Hdig Hup. split; [|apply elem_of_app; right; by left].
  split_and!.
  - by destruct d.
  - split; intros c.
    + destruct d as [|x d]; [done|]. simpl. intros [= <-].
      apply Forall_cons in Hdig as [Hx _]. by apply isdigit_class in Hx as (? & _).
    + rewrite last_app_cons. destruct l as [|y l]; [done|].
      rewrite last_cons_cons. intros Hc%last_Some_elem_of.
      rewrite Forall_forall in Hup. specialize (Hup c Hc).
      by apply is_upper_class in Hup as (? & _).
  - apply Forall_app. split; [|constructor; [done|]].
    + eapply Forall_impl; [exact Hdig|]. simpl. intros c Hc.
      by apply isdigit_class in Hc as (_ & ? & _).
    + eapply Forall_impl; [exact Hup|]. simpl. intros c Hc.
      by apply is_upper_class in Hc as (_ & ? & _).
Qed.

Lemma normalize_symbol_clean (s : (list Ascii.ascii)) : clean_symbol s → clean_symbol (normalize_symbol s).
Proof.
  intros Hs. unfold normalize_symbol. case_bool_decide; [done|].
  destruct (match_no_space s) as [[d l]|] eqn:H1.
  { apply match_no_space_Some in H1 as (?&?&?&?). by apply dotted_clean. }
  destruct (match_space s) as [[d l]|] eqn:H2; [|done].
  apply match_space_Some in H2 as (?&?&?&?). by apply dotted_clean.
Qed.

Lemma normalize_symbol_idemp (s : (list Ascii.ascii)) :
  normalize_symbol (normalize_symbol s) = normalize_symbol s.
Proof.
  assert (∀ t, dot ∈ t → normalize_symbol t = t) as Hdotted.
  { intros t Ht. unfold normalize_symbol. by rewrite bool_decide_eq_true_2. }
  destruct (decide (dot ∈ s)) as [Hdot|Hdot].
  { rewrite (Hdotted s Hdot). exact (Hdotted s Hdot). }
  destruct (match_no_space s) as [[d l]|] eqn:H1.
  { assert (normalize_symbol s = d ++ dot :: l) as ->.
    { unfold normalize_symbol. by rewrite bool_decide_eq_false_2, H1. }
    apply match_no_space_Some in H1 as (?&?&?&?). by apply Hdotted, dotted_clean. }
  destruct (match_space s) as [[d l]|] eqn:H2.
  { assert (normalize_symbol s = d ++ dot :: l) as ->.
    { unfold normalize_symbol. by rewrite bool_decide_eq_false_2, H1, H2. }
    apply match_space_Some in H2 as (?&?&?&?). by apply Hdotted, dotted_clean. }
  assert (normalize_symbol s = s) as Hs.
  { unfold normalize_symbol. by rewrite bool_decide_eq_false_2, H1, H2. }
  rewrite Hs. exact Hs.
Qed.

(** The two copies of the normalisation agree. *)
Theorem normalize_symbol_inline_agrees (symbol : (list Ascii.ascii)) :
  normalize_symbol_inline symbol = normalize_symbol symbol.
Proof.
  unfold normalize_symbol_inline, normalize_symbol. by case_bool_decide.
Qed.

(** A symbol that [get_stock_symbol] returns is not empty, has no white
    space at either end and no lower-case letter, and entering it again
    returns it unchanged. *)
Theorem get_stock_symbol_clean (answers : list (option (list Ascii.ascii))) (symbol : (list Ascii.ascii)) :
  get_stock_symbol answers = Entered symbol →
  clean_symbol symbol ∧ get_stock_symbol [Some symbol] = Entered symbol.
Proof.
  induction answers as [|[input|] answers IH]; simpl; [done| |done].
  destruct (nonempty (str_upper (str_strip input))) eqn:Hne; [|exact IH].
  intros [= <-].
  assert (clean_symbol (str_upper (str_strip input))) as Hclean.
  { split_and!; [by apply nonempty_true| |apply str_upper_no_lower].
    apply str_upper_trimmed, str_strip_trimmed. }
  pose proof (normalize_symbol_clean _ Hclean) as (Hn & Ht & Hl).
  split; [done|].
  rewrite (str_strip_fixed _ Ht), (str_upper_fixed _ Hl).
  rewrite (proj2 (nonempty_true _) Hn). by rewrite normalize_symbol_idemp.
Qed.

Lemma forallb_false_head (p : Ascii.ascii → bool) (s : (list Ascii.ascii)) (c : Ascii.ascii) :
  head s = Some c → p c = false → forallb p s = false.
Proof. destruct s; [done|]. simpl. intros [= ->] ->. done. Qed.

(** Digits, then white space or none, then letters, with white space
    around: the symbol returned is the digits, a dot, and the letters in
    upper case (1155KL gives 1155.KL, 0700 hk gives 0700.HK). *)
Theorem get_stock_symbol_exchange_suffix (a d ws l b : (list Ascii.ascii))
    (rest : list (option (list Ascii.ascii))) :
  Forall (λ c, isspace c = true) a → Forall (λ c, isspace c = true) ws →
  Forall (λ c, isspace c = true) b →
  d ≠ [] → Forall (λ c, isdigit c = true) d →
  l ≠ [] → Forall (λ c, is_lower_letter c = true ∨ is_upper_letter c = true) l →
  get_stock_symbol (Some (a ++ d ++ ws ++ l ++ b) :: rest)
  = Entered (d ++ dot :: str_upper l).
Proof.
  intros Ha Hws Hb Hd Hdig Hl Hlet.
  set (ul := str_upper l).
  assert (Forall (λ c, is_upper_letter c = true) ul) as Hul.
  { apply Forall_fmap. eapply Forall_impl; [exact Hlet|]. simpl.
    intros c Hc. by apply upper_char_letter. }
  assert (ul ≠ []) as Hulne by (destruct l; done).
  assert (∃ x, head d = Some x ∧ isdigit x = true) as (x & Hx & Hxd).
  { destruct d as [|x d']; [done|]. exists x. split; [done|]. by inversion Hdig. }
  assert (∃ y, head ul = Some y ∧ is_upper_letter y = true) as (y & Hy & Hyu).
  { destruct ul as [|y ul']; [done|]. exists y. split; [done|]. by inversion Hul. }
  assert (∀ c, last (d ++ ws ++ l) = Some c →
            is_lower_letter c = true ∨ is_upper_letter c = true) as Hlast.
  { intros c Hc. rewrite !last_app in Hc.
    destruct (last l) as [z|] eqn:Hz; [|by apply last_None in Hz].
    injection Hc as <-. apply last_Some_elem_of in Hz.
    rewrite Forall_forall in Hlet. by apply Hlet. }
  (* strip *)
  assert (str_strip (a ++ d ++ ws ++ l ++ b) = d ++ ws ++ l) as Hstrip.
  { unfold str_strip. rewrite lstrip_spaces by done.
    rewrite lstrip_fixed.
    2:{ intros c. destruct d as [|x' d']; [done|]. simpl. intros [= <-].
        injection Hx as ->. by apply isdigit_class in Hxd as (? & _). }
    replace (d ++ ws ++ l ++ b) with ((d ++ ws ++ l) ++ b) by (by rewrite <- !(assoc_L (++))).
    rewrite rstrip_spaces by done. apply rstrip_fixed.
    intros c Hc. destruct (Hlast c Hc) as [H|H]; revert H; clear; all_chars c. }
  (* upper *)
  assert (str_upper (d ++ ws ++ l) = d ++ ws ++ ul) as Hupper.
  { unfold str_upper. rewrite !fmap_app. f_equal; [|f_equal].
    - apply str_upper_fixed. eapply Forall_impl; [exact Hdig|]. simpl.
      intros c Hc. by apply isdigit_class in Hc as (_ & ? & _).
    - apply str_upper_fixed. eapply Forall_impl; [exact Hws|]. simpl.
      intros c Hc. by apply isspace_class in Hc as (? & _). }
  simpl. rewrite Hstrip, Hupper.
  assert (nonempty (d ++ ws ++ ul) = true) as -> by (apply nonempty_true; by destruct d).
  f_equal. unfold normalize_symbol.
  rewrite bool_decide_eq_false_2.
  2:{ rewrite !elem_of_app. intros [Hin|[Hin|Hin]].
      - rewrite Forall_forall in Hdig. by apply Hdig, isdigit_class in Hin as (_&_&_&?).
      - rewrite Forall_forall in Hws. by apply Hws, isspace_class in Hin as (_&_&_&?).
      - rewrite Forall_forall in Hul. by apply Hul, is_upper_class in Hin as (_&_&_&?&_). }
  assert (before_final_newline (d ++ ws ++ ul) = d ++ ws ++ ul) as Hnl.
  { apply before_final_newline_fixed. intros c Hc. rewrite !last_app in Hc.
    destruct (last ul) as [z|] eqn:Hz; [|by apply last_None in Hz].
    injection Hc as <-. apply last_Some_elem_of in Hz.
    rewrite Forall_forall in Hul. by apply Hul, is_upper_class in Hz as (_&_&_&_&?). }
  assert (span isdigit (d ++ ws ++ ul) = (d, ws ++ ul)) as Hspan.
  { apply span_app; [done|]. intros c. destruct ws as [|w ws']; simpl.
    - rewrite Hy. intros [= <-]. by apply is_upper_class in Hyu as (_&_&?&_).
    - intros [= <-]. apply Forall_cons in Hws as [Hw _].
      by apply isspace_class in Hw as (_&_&?&_). }
  unfold match_no_space, match_space. rewrite Hnl, Hspan.
  rewrite (proj2 (nonempty_true d) Hd).
  destruct ws as [|w ws'].
  - simpl app. rewrite (proj2 (nonempty_true ul) Hulne).
    by rewrite (proj2 (forallb_Forall _ _) Hul).
  - assert (forallb is_upper_letter ((w :: ws') ++ ul) = false) as ->.
    { apply (forallb_false_head _ _ w); [done|]. apply Forall_cons in Hws as [Hw _].
      by apply isspace_class in Hw as (_&?&_). }
    rewrite andb_false_r.
    rewrite (span_app isspace (w :: ws') ul Hws).
    2:{ intros c. rewrite Hy. intros [= <-]. by apply is_upper_class in Hyu as (?&_). }
    rewrite (proj2 (nonempty_true ul) Hulne).
    by rewrite (proj2 (forallb_Forall _ _) Hul).
Qed.

(** ** Company name and news sentiment *)

(** Whatever the lookup gives, the name returned is the symbol, the long
    name, or the short name when there is no long name; it is empty only
    if the symbol is.  A long name that is present but empty or [None]
    gives the symbol, not the short name. *)
Theorem get_company_name_fallback (stock_info : ticker_info) (symbol : string) :
  (symbol ≠ ""%string → get_company_name stock_info symbol ≠ ""%string)
  ∧ (get_company_name stock_info symbol = symbol
     ∨ ∃ info, stock_info = InfoDict info
         ∧ (info !! "longName"%string = Some (PyStr (get_company_name stock_info symbol))
            ∨ (info !! "longName"%string = None
               ∧ info !! "shortName"%string
                 = Some (PyStr (get_company_name stock_info symbol)))))
  ∧ (∀ info, stock_info = InfoDict info →
       info !! "longName"%string = Some PyNone
       ∨ info !! "longName"%string = Some (PyStr "") →
       get_company_name stock_info symbol = symbol).
Proof.
  split_and!.
  - intros Hs. destruct stock_info as [| |info]; simpl; try done.
    case_bool_decide; [|done].
    destruct (info !! "longName"%string) as [[|l]|]; simpl; try done.
    + by case_bool_decide.
    + destruct (info !! "shortName"%string) as [[|s]|]; simpl; try done;
        by case_bool_decide.
  - destruct stock_info as [| |info]; simpl; try by left.
    case_bool_decide; [|by left].
    destruct (info !! "longName"%string) as [[|l]|] eqn:Hl; simpl; try by left.
    + case_bool_decide; [by left|]. right. exists info. split; [done|]. by left.
    + destruct (info !! "shortName"%string) as [[|s]|] eqn:Hs; simpl; try by left.
      * case_bool_decide; [by left|]. right. exists info. split; [done|]. by right.
      * case_bool_decide; by left.
  - intros info -> [Hl|Hl]; simpl; case_bool_decide; try done; by rewrite Hl.
Qed.

Section NewsProps.
Context {K : Type} `{Countable K}.

Lemma add_score_size (k : K) (score : Q) (m : gmap K (list Q)) :
  (size (add_score k score m) ≤ S (size m))%nat.
Proof.
  unfold add_score. destruct (m !! k) as [l|] eqn:Hk.
  - rewrite map_size_insert_Some by eauto. lia.
  - by rewrite map_size_insert_None.
Qed.

Lemma process_article_urls_inv (st : news_state) (a : article K) :
  news_urls_inv st → news_urls_inv (process_article st a).
Proof.
  intros (Hnd & Hurls & Hsize). unfold process_article.
  destruct (art_url a) as [url|]; [|done].
  destruct (valid_url url) eqn:Hvalid; simpl; [|done].
  case_bool_decide as Hseen; [done|].
  assert (Forall (λ u, u ∈ ({[url]} ∪ processed_urls st : gset string)
                       ∧ valid_url u = true) (article_urls st)) as Hurls1.
  { eapply Forall_impl; [exact Hurls|]. simpl. intros u [Hu ?]. split; [|done].
    apply elem_of_union. by right. }
  destruct (art_text a) as [text|]; [|done].
  destruct (String.length text <? 100)%nat; [done|].
  assert (url ∉ article_urls st) as Hfresh.
  { intros Hin. rewrite Forall_forall in Hurls. by destruct (Hurls url Hin). }
  assert (NoDup (article_urls st ++ [url])) as Hnd2.
  { apply NoDup_app. split_and!; [done| |apply NoDup_singleton].
    intros u Hu ->%list_elem_of_singleton. done. }
  assert (Forall (λ u, u ∈ ({[url]} ∪ processed_urls st : gset string)
                       ∧ valid_url u = true) (article_urls st ++ [url])) as Hurls2.
  { apply Forall_app. split; [done|]. apply Forall_singleton. split; [|done].
    apply elem_of_union. left. by apply elem_of_singleton. }
  assert (length (article_urls st ++ [url]) = S (length (article_urls st))) as Hlen.
  { rewrite length_app. simpl. lia. }
  destruct (art_compound a) as [score|].
  2:{ split_and!; simpl; [done|done|lia]. }
  destruct (pub_date a) as [d|].
  2:{ split_and!; simpl; [done|done|lia]. }
  split_and!; simpl; [done|done|].
  pose proof (add_score_size d score (sentiments st)). lia.
Qed.

Lemma process_article_scores_inv (lo hi : Q) (st : news_state) (a : article K) :
  (∀ s, art_compound a = Some s → lo <= s <= hi) →
  news_scores_inv lo hi st → news_scores_inv lo hi (process_article st a).
Proof.
  intros Ha Hscores. unfold process_article.
  destruct (art_url a) as [url|]; [|done].
  destruct (valid_url url); simpl; [|done].
  case_bool_decide; [done|].
  destruct (art_text a) as [text|]; [|done].
  destruct (String.length text <? 100)%nat; [done|].
  destruct (art_compound a) as [score|]; [|done].
  destruct (pub_date a) as [d|]; [|done].
  unfold news_scores_inv, add_score. simpl. apply map_Forall_insert_2; [|done]. split.
  - by destruct (default [] (sentiments st !! d)).
  - apply Forall_app. split; [|apply Forall_singleton; by apply Ha].
    destruct (sentiments st !! d) as [l|] eqn:Hd; simpl; [|constructor].
    by destruct (Hscores d l Hd).
Qed.

Lemma foldl_process_urls_inv (rows : list (article K)) (st : news_state) :
  news_urls_inv st → news_urls_inv (foldl process_article st rows).
Proof.
  revert st. induction rows as [|a rows IH]; intros st Hst; simpl; [done|].
  by apply IH, process_article_urls_inv.
Qed.

Lemma foldl_process_scores_inv (lo hi : Q) (rows : list (article K)) (st : news_state) :
  Forall (λ a, ∀ s, art_compound a = Some s → lo <= s <= hi) rows →
  news_scores_inv lo hi st → news_scores_inv lo hi (foldl process_article st rows).
Proof.
  intros Hrows. revert st. induction Hrows as [|a rows Ha _ IH]; intros st Hst; simpl.
  - done.
  - by apply IH, process_article_scores_inv.
Qed.

Lemma py_sum_bounds (lo hi : Q) (l : list Q) :
  Forall (λ s, lo <= s <= hi) l →
  lo * inject_Z (Z.of_nat (length l)) <= py_sum l
  ∧ py_sum l <= hi * inject_Z (Z.of_nat (length l)).
Proof.
  unfold py_sum. intros Hl.
  assert (∀ acc, acc + lo * inject_Z (Z.of_nat (length l)) <= foldl Qplus acc l
                 ∧ foldl Qplus acc l <= acc + hi * inject_Z (Z.of_nat (length l))) as Hacc.
  { induction Hl as [|x l [Hlo Hhi] _ IH]; intros acc.
    - cbn. change (inject_Z (Z.of_nat 0)) with 0. lra.
    - rewrite inject_length_succ. cbn [foldl].
      destruct (IH (acc + x)) as [IH1 IH2].
      set (n := inject_Z (Z.of_nat (length l))) in *. split; nra. }
  destruct (Hacc 0). split; lra.
Qed.

Lemma daily_mean_bounds (lo hi : Q) (l : list Q) :
  l ≠ [] → Forall (λ s, lo <= s <= hi) l → lo <= daily_mean l <= hi.
Proof.
  intros Hne Hall. destruct (py_sum_bounds lo hi l Hall) as [Hlo Hhi].
  unfold daily_mean.
  assert (0 < inject_Z (Z.of_nat (length l))) as Hpos.
  { destruct l; [done|]. rewrite <- (Zlt_Qlt 0). simpl length. lia. }
  split.
  - apply Qle_shift_div_l; [done|lra].
  - apply Qle_shift_div_r; [done|lra].
Qed.

(** Every daily score that [get_news_sentiment] returns lies within the
    bounds of the scores of the articles. *)
Theorem get_news_sentiment_bounded (PERFORM_SENTIMENT : bool) (old_urls : list string)
    (articles_df : option (list (article K))) (lo hi : Q) :
  Forall (λ a, ∀ s, art_compound a = Some s → lo <= s <= hi) (default [] articles_df) →
  map_Forall (λ _ v, lo <= v <= hi)
    (get_news_sentiment PERFORM_SENTIMENT old_urls articles_df).1.
Proof.
  intros Hrows. unfold get_news_sentiment.
  destruct PERFORM_SENTIMENT; simpl; [|apply map_Forall_empty].
  destruct articles_df as [[|a rows]|]; simpl; try apply map_Forall_empty.
  simpl in Hrows.
  pose proof (foldl_process_scores_inv lo hi (a :: rows) (NewsState ∅ ∅ []) Hrows
                (map_Forall_empty _)) as Hscores.
  apply map_Forall_fmap. intros k l Hk. simpl.
  destruct (Hscores k l Hk) as [Hne Hall]. by apply daily_mean_bounds.
Qed.

(** The list of article URLs left by a run with sentiment enabled has no
    repetition, holds only http and https URLs, and is at least as long
    as the map returned has dates. *)
Theorem get_news_sentiment_urls (old_urls : list string)
    (articles_df : option (list (article K))) :
  let result := get_news_sentiment true old_urls articles_df in
  NoDup result.2
  ∧ Forall (λ u, valid_url u = true) result.2
  ∧ (size result.1 ≤ length result.2)%nat.
Proof.
  unfold get_news_sentiment. simpl.
  destruct articles_df as [[|a rows]|]; simpl;
    try (split_and!; [constructor|constructor|by rewrite map_size_empty]).
  destruct (foldl_process_urls_inv (a :: rows) (NewsState ∅ ∅ [])) as (Hnd & Hurls & Hsize).
  { split_and!; simpl; [constructor|constructor|by rewrite map_size_empty]. }
  split_and!; [done| |by rewrite map_size_fmap].
  eapply Forall_impl; [exact Hurls|]. by intros u [_ ?].
Qed.
End NewsProps.

(** ** The price download *)

Lemma lower_char_idemp (c : Ascii.ascii) : lower_char (lower_char c) = lower_char c.
Proof. destruct c as [[] [] [] [] [] [] [] []]; reflexivity. Qed.

Lemma lower_idemp (s : string) : lower (lower s) = lower s.
Proof. induction s as [|c s IH]; simpl; [done|]. by rewrite lower_char_idemp, IH. Qed.

Lemma lower_columns_names (cols : list (string * list Q)) :
  Forall (λ n, lower n = n) (lower_columns cols).*1.
Proof.
  unfold lower_columns. apply Forall_fmap, Forall_fmap, Forall_forall.
  intros nc _. simpl. apply lower_idemp.
Qed.

Lemma lower_columns_fixed (cols : list (string * list Q)) :
  Forall (λ n, lower n = n) cols.*1 → lower_columns cols = cols.
Proof.
  induction cols as [|[n c] cols IH]; [done|].
  rewrite fmap_cons. intros [Hn Hc]%Forall_cons. unfold lower_columns in *.
  rewrite fmap_cons. cbn [fst snd] in *. rewrite Hn. f_equal. by apply IH.
Qed.

Lemma drop_duplicated_names (name : string) (seen : list string)
    (cols : list (string * list Q)) :
  name ∈ (drop_duplicated seen cols).*1 ↔ name ∈ cols.*1 ∧ name ∉ seen.
Proof.
  revert seen. induction cols as [|[n c] cols IH]; intros seen.
  - simpl. split; [by intros ?%elem_of_nil|by intros [?%elem_of_nil _]].
  - change (drop_duplicated seen ((n, c) :: cols))
      with (if bool_decide (n ∈ seen) then drop_duplicated seen cols
            else (n, c) :: drop_duplicated (n :: seen) cols).
    rewrite (fmap_cons fst (n, c) cols). cbn [fst].
    case_bool_decide as Hn.
    + rewrite IH, elem_of_cons. split.
      * intros [? ?]. split; [by right|done].
      * intros [[->|?] ?]; [done|by split].
    + rewrite fmap_cons. cbn [fst]. rewrite !elem_of_cons, IH, elem_of_cons. split.
      * intros [->|[? Hns]]; [by split; [left|]|].
        split; [by right|]. intros ?. apply Hns. by right.
      * intros [[->|?] Hs]; [by left|].
        destruct (decide (name = n)) as [->|Hne]; [by left|right].
        split; [done|]. by intros [?|?].
Qed.

Lemma select_rows_spec {A} (mask : list bool) (col : list A) (x : A) :
  x ∈ select_rows mask col → ∃ i, mask !! i = Some true ∧ col !! i = Some x.
Proof.
  unfold select_rows. intros ([b y] & -> & Hin%list_elem_of_filter)%list_elem_of_fmap.
  destruct Hin as [Hb Hin]. simpl in Hb. subst b.
  apply list_elem_of_lookup_1 in Hin as [i Hi]. exists i.
  by apply lookup_zip_Some in Hi.
Qed.

Lemma filter_none {A} (P : A → Prop) `{∀ x, Decision (P x)} (l : list A) :
  Forall (λ x, ¬ P x) l → filter P l = [].
Proof.
  induction 1 as [|x l Hx _ IH]; [done|]. by rewrite filter_cons_False.
Qed.

(** The table [get_stock_data] returns is empty, or it has the five
    columns open, high, low, close and volume under lower-case names,
    only dates up to the end date, all of them dates of the download, and
    passes the column check of [compute_indicators]. *)
Theorem get_stock_data_result (result : download) (end_date : Z) :
  let data := get_stock_data result end_date in
  df_empty data = true
  ∨ (Forall (λ c, c ∈ (columns data).*1) stock_required_cols
     ∧ Forall (λ n, lower n = n) (columns data).*1
     ∧ Forall (λ d, (d ≤ end_date)%Z) (index data)
     ∧ (∀ idx cols, result = Downloaded idx cols → index data ⊆ idx)
     ∧ missing_cols (drop_duplicated [] (lower_columns (columns data))) = []).
Proof.
  unfold get_stock_data. destruct result as [| |idx cols]; simpl; try by left.
  destruct (df_empty (Frame idx _)) eqn:He1; [by left|].
  cbn [index columns].
  set (mask := (λ d, bool_decide (d ≤ end_date)%Z) <$> idx).
  set (cols1 := (λ nc : string * list Q, (nc.1, select_rows mask nc.2))
                  <$> ((λ lc : string * list string * list Q, (lc.1.1, lc.2)) <$> cols)).
  destruct (df_empty (Frame (select_rows mask idx) cols1)) eqn:He2; [by left|].
  cbn [index columns].
  case_bool_decide as Hmiss; [|by left]. right.
  assert (Forall (λ c, c ∈ (lower_columns cols1).*1) stock_required_cols) as Hreq.
  { apply Forall_forall. intros c Hc.
    destruct (decide (c ∈ (lower_columns cols1).*1)) as [|Hn]; [done|].
    assert (c ∈ filter (λ c, c ∉ (lower_columns cols1).*1) stock_required_cols) as Hin
      by (by apply list_elem_of_filter).
    rewrite Hmiss in Hin. by apply elem_of_nil in Hin. }
  cbn [index columns]. split_and!.
  - done.
  - apply lower_columns_names.
  - apply Forall_forall. intros d (i & Hm & Hd)%select_rows_spec.
    unfold mask in Hm. rewrite list_lookup_fmap, Hd in Hm. simpl in Hm.
    injection Hm as Hm. by apply bool_decide_eq_true in Hm.
  - intros idx' cols' [= <- <-] d (i & _ & Hd)%select_rows_spec.
    by eapply list_elem_of_lookup_2.
  - rewrite (lower_columns_fixed (lower_columns cols1)) by apply lower_columns_names.
    unfold missing_cols. apply filter_none, Forall_forall. intros c Hc Hn. apply Hn.
    apply drop_duplicated_names. split; [|by intros ?%elem_of_nil].
    rewrite Forall_forall in Hreq. apply Hreq.
    unfold required_cols in Hc. unfold stock_required_cols.
    repeat (apply elem_of_cons in Hc as [->|Hc];
            [repeat first [by left | right] |]).
    by apply elem_of_nil in Hc.
Qed.

(** ** The properties at sample inputs *)

Lemma compute_rsi_warmup_witness :
  rsi_avg_loss (rising_closes 16) 14 !! 3%nat = Some None
  ∧ compute_rsi (rising_closes 16) 14 !! 3%nat = Some (Some 100).
Proof. apply (compute_rsi_warmup (rising_closes 16) 14 3); vm_compute; lia. Defined.

Lemma compute_rsi_no_loss_witness :
  rsi_avg_gain (rising_closes 16) 14 !! 15%nat = Some (Some 1)
  ∧ compute_rsi (rising_closes 16) 14 !! 15%nat = Some (Some 100).
Proof.
  split; [vm_compute; reflexivity|].
  apply (compute_rsi_no_loss (rising_closes 16) 14 15 0); vm_compute; reflexivity.
Defined.

Lemma indicators_ema_within_witness :
  Forall (λ r, ∃ c e m,
            r !! 0%nat = Some c ∧ c ∈ rising_closes 12
            ∧ r !! 1%nat = Some e ∧ 100 <= e <= 111
            ∧ r !! 2%nat = Some m ∧ 100 - 111 <= m <= 111 - 100)
    (compute_indicators (λ x, x) (sample_frame (rising_closes 12)) 2 2).
Proof.
  apply (indicators_ema_within (λ x, x) (sample_frame (rising_closes 12)) 2 2
           (rising_closes 12) 100 111); [reflexivity|].
  vm_compute. repeat constructor; discriminate.
Defined.

Lemma scaler_round_trip_witness :
  MinMaxScaler.inverse_transform1 sample_close_scaler
    (MinMaxScaler.transform1 sample_close_scaler 5) == 5
  ∧ MinMaxScaler.transform1 sample_close_scaler
      (MinMaxScaler.inverse_transform1 sample_close_scaler 5) == 5.
Proof.
  apply (scaler_round_trip sample_matrix sample_scaled.1 0 sample_close_scaler 5);
    vm_compute; reflexivity.
Defined.

Lemma fit_transform_unit_witness :
  length sample_scaled.2 = length sample_matrix
  ∧ Forall (λ r, length r = 2%nat ∧ Forall (λ x, 0 <= x <= 1) r) sample_scaled.2.
Proof.
  apply (fit_transform_unit sample_matrix sample_scaled.2 sample_scaled.1 2).
  - repeat constructor.
  - vm_compute. reflexivity.
Defined.

Lemma predict_future_result_shape_witness :
  length sample_forecast.1 = 10%nat
  ∧ Forall (λ d, is_business_day d = true) sample_forecast.1
  ∧ StronglySorted Z.lt sample_forecast.1
  ∧ (sample_forecast.2 = [] ∨ length sample_forecast.2 = length sample_forecast.1).
Proof.
  apply (predict_future_result_shape (λ x, x) sample_train (λ _, 0) 738030 false ∅ ols
           (sample_frame (rising_closes 23)) 2).
  vm_compute. reflexivity.
Defined.

Lemma predict_future_needs_close_witness :
  length (compute_indicators (λ x, x) sample_frame_capitalised 20 20) = 4%nat
  ∧ predict_future (λ x, x) sample_train (λ _, 0) 738030 false ∅ ols
      sample_frame_capitalised 2
    = Raised.
Proof.
  split; [vm_compute; reflexivity|].
  destruct (predict_future_needs_close (λ x, x) sample_train (λ _, 0) 738030 false ∅ ols
              sample_frame_capitalised 2) as [Hshort|Hraised].
  - reflexivity.
  - exfalso. vm_compute in Hshort. discriminate.
  - exact Hraised.
Defined.

Lemma predict_future_needs_rows_witness :
  predict_future (λ x, x) sample_train (λ _, 0) 738030 false ∅ ols
    (sample_frame (rising_closes 21)) 2
  = insufficient_data 738030 (sample_frame (rising_closes 21)).
Proof.
  apply (predict_future_needs_rows (λ x, x) sample_train (λ _, 0) 738030 false ∅ ols
           (sample_frame (rising_closes 21)) 2).
  vm_compute. lia.
Defined.

Lemma predict_future_first_price_witness :
  ∃ last_actual_price p0,
    last_actual_close (sample_frame (rising_closes 23)) = Some last_actual_price
    ∧ head sample_forecast.2 = Some p0
    ∧ p0 == Qmax last_actual_price (1 # 100).
Proof.
  apply (predict_future_first_price (λ x, x) sample_train 738030 ∅ ols
           (sample_frame (rising_closes 23)) 2 sample_forecast.1 sample_forecast.2).
  - vm_compute. reflexivity.
  - vm_compute. discriminate.
Defined.

Lemma sentiment_blend_bounded_witness :
  ∃ p', sentiment_blend sample_sentiment [738000%Z; 738001%Z] [100; 200] !! 0%nat = Some p'
    ∧ Qabs (p' - 100) <= (5 # 1000) * Qabs 100
    ∧ (sample_sentiment !! 738000%Z = None → p' == 100).
Proof.
  apply (sentiment_blend_bounded sample_sentiment [738000%Z; 738001%Z] [100; 200] 0
           738000%Z 100); [|reflexivity|reflexivity].
  intros d s Hs. unfold sample_sentiment in Hs.
  apply lookup_singleton_Some in Hs as [_ <-]. split; discriminate.
Defined.

Lemma obv_flat_closes_witness :
  obv [5; 5; 5] [10; 20; 30] = replicate 3 0
  ∧ length (obv_column [5; 5; 5] [10; 20; 30]) = 3%nat
  ∧ Forall (λ x, x == 0) (obv_column [5; 5; 5] [10; 20; 30]).
Proof.
  apply (obv_flat_closes [5; 5; 5] [10; 20; 30] 5); [|reflexivity].
  repeat constructor.
Defined.

Lemma get_stock_symbol_clean_witness :
  clean_symbol (String.list_ascii_of_string "0700.HK")
  ∧ get_stock_symbol [Some (String.list_ascii_of_string "0700.HK")]
    = Entered (String.list_ascii_of_string "0700.HK").
Proof.
  apply (get_stock_symbol_clean
           [Some (String.list_ascii_of_string "   "); Some (String.list_ascii_of_string " 0700 hk ")]
           (String.list_ascii_of_string "0700.HK")).
  vm_compute. reflexivity.
Defined.

Lemma get_stock_symbol_exchange_suffix_witness :
  get_stock_symbol [Some (String.list_ascii_of_string " 1155kl ")]
  = Entered (String.list_ascii_of_string "1155.KL").
Proof.
  apply (get_stock_symbol_exchange_suffix (String.list_ascii_of_string " ")
           (String.list_ascii_of_string "1155") [] (String.list_ascii_of_string "kl")
           (String.list_ascii_of_string " ") []).
  - repeat constructor.
  - constructor.
  - repeat constructor.
  - discriminate.
  - repeat constructor.
  - discriminate.
  - repeat constructor; by left.
Defined.

Lemma get_news_sentiment_bounded_witness :
  map_Forall (λ _ v, -1 <= v <= 1)
    (get_news_sentiment true [] (Some [sample_article; sample_article_no_url])).1.
Proof.
  apply (get_news_sentiment_bounded true [] (Some [sample_article; sample_article_no_url])
           (-1) 1).
  repeat constructor; simpl in *; simplify_eq; discriminate.
Defined.
